(** * Grenada election scraper: table extraction (main.py)

    A shallow embedding of the text helpers ([clean_text], [parse_int],
    [parse_float]), of the table locator and of the two table extractors
    of [main.py], together with the properties of them that the
    specification states.

    Python strings are sequences of Unicode code points; the parsed page
    is a tree of tags and text nodes as BeautifulSoup exposes it. *)

From Stdlib Require Import String Ascii.
From Stdlib Require Import ZArith NArith List Bool Lia.
From Stdlib Require Import Floats.SpecFloat.
Import Corelib.Init.Datatypes ListNotations.
Open Scope string_scope.
Open Scope list_scope.
Open Scope Z_scope.
Set Warnings "-register-all".

(** ** Strings *)

(** A character is its Unicode code point. *)
Definition char := N.
Definition pystr := list char.

(** An ASCII literal as a Python string. *)
Definition str (s : String.string) : pystr :=
  map N_of_ascii (String.list_ascii_of_string s).

Definition char_eqb (a b : char) : bool := N.eqb a b.

Fixpoint str_eqb (a b : pystr) : bool :=
  match a, b with
  | [], [] => true
  | x :: a', y :: b' => char_eqb x y && str_eqb a' b'
  | _, _ => false
  end.

(** [s.startswith(p)] *)
Fixpoint startswith (p s : pystr) : bool :=
  match p, s with
  | [], _ => true
  | _ :: _, [] => false
  | x :: p', y :: s' => char_eqb x y && startswith p' s'
  end.

(** [p in s] on strings: [p] occurs as a contiguous substring of [s]. *)
Fixpoint contains (p s : pystr) : bool :=
  startswith p s ||
  match s with
  | [] => false
  | _ :: s' => contains p s'
  end.

(** Truthiness of a string: [bool(s)]. *)
Definition nonempty (s : pystr) : bool :=
  match s with [] => false | _ :: _ => true end.

(** ** Character classes of the interpreter (Unicode 14.0, CPython 3.11) *)

Definition in_range (lo hi c : N) : bool := N.leb lo c && N.leb c hi.

(** [Py_UNICODE_ISSPACE]: what [str.strip()], [str.isspace()] and the
    regular-expression class [\s] recognise. *)
Definition space_ranges : list (N * N) :=
  [(9, 13); (28, 32); (133, 133); (160, 160); (5760, 5760); (8192, 8202);
   (8232, 8233); (8239, 8239); (8287, 8287); (12288, 12288)]%N.

Definition is_space (c : char) : bool :=
  existsb (fun r => in_range (fst r) (snd r) c) space_ranges.

(** The code points of the digit zero of every decimal script (general
    category Nd); each is followed by its digits one to nine. *)
Definition decimal_zeros : list N :=
  [48; 1632; 1776; 1984; 2406; 2534; 2662; 2790; 2918; 3046; 3174; 3302;
   3430; 3558; 3664; 3792; 3872; 4160; 4240; 6112; 6160; 6470; 6608; 6784;
   6800; 6992; 7088; 7232; 7248; 42528; 43216; 43264; 43472; 43504; 43600;
   44016; 65296; 66720; 68912; 69734; 69872; 69942; 70096; 70384; 70736;
   70864; 71248; 71360; 71472; 71904; 72016; 72784; 73040; 73120; 92768;
   92864; 93008; 120782; 120792; 120802; 120812; 120822; 123200; 123632;
   125264; 130032]%N.

(** [Py_UNICODE_TODECIMAL]: the value of a decimal digit, if it is one. *)
Fixpoint decimal_in (zeros : list N) (c : char) : option Z :=
  match zeros with
  | [] => None
  | z :: zs =>
      if in_range z (z + 9) c then Some (Z.of_N (c - z)) else decimal_in zs c
  end.

Definition to_decimal (c : char) : option Z := decimal_in decimal_zeros c.

(** The regular-expression class [\d] (and [str.isdecimal] on one
    character). *)
Definition is_decimal (c : char) : bool :=
  match to_decimal c with Some _ => true | None => false end.

(** Characters of numeric type Digit that are not decimal digits
    (superscripts, circled digits and the like): [str.isdigit] accepts
    them, [\d] and [int] do not. *)
Definition digit_only_ranges : list (N * N) :=
  [(178, 179); (185, 185); (4969, 4977); (6618, 6618); (8304, 8304);
   (8308, 8313); (8320, 8329); (9312, 9320); (9332, 9340); (9352, 9360);
   (9450, 9450); (9461, 9469); (9471, 9471); (10102, 10110);
   (10112, 10120); (10122, 10130); (68160, 68163); (69216, 69224);
   (69714, 69722); (127232, 127242)]%N.

Definition is_digit_char (c : char) : bool :=
  is_decimal c ||
  existsb (fun r => in_range (fst r) (snd r) c) digit_only_ranges.

(** [s.isdigit()]: non-empty and every character a digit. *)
Definition isdigit (s : pystr) : bool := nonempty s && forallb is_digit_char s.

(** ** String methods *)

Fixpoint lstrip (s : pystr) : pystr :=
  match s with
  | c :: s' => if is_space c then lstrip s' else s
  | [] => []
  end.

Definition rstrip (s : pystr) : pystr := rev (lstrip (rev s)).

(** [s.strip()] *)
Definition strip (s : pystr) : pystr := rstrip (lstrip s).

(** [s.replace(c, "")] for a one-character [c]. *)
Definition remove_char (c : char) (s : pystr) : pystr :=
  filter (fun x => negb (char_eqb x c)) s.

(** ** Regular-expression substitutions *)

Definition lbracket : char := 91%N.
Definition rbracket : char := 93%N.
Definition space : char := 32%N.
Definition comma : char := 44%N.
Definition dot : char := 46%N.
Definition underscore : char := 95%N.

(** [re.sub(r"\[\d+\]", "", text)], as a scan that holds back a pending
    ["["] and the digits after it: [pending] is [None] outside a
    candidate match and [Some ds] after ["["] and the digits [ds] (kept
    in reverse).  A ["]"] after at least one digit drops the pending
    text; any other character gives it back to the output. *)
Definition flush (pending : option pystr) : pystr :=
  match pending with
  | None => []
  | Some ds => lbracket :: rev ds
  end.

Fixpoint strip_refs_from (pending : option pystr) (s : pystr) : pystr :=
  match s with
  | [] => flush pending
  | c :: s' =>
      match pending with
      | Some (d :: ds) =>
          if char_eqb c rbracket then strip_refs_from None s'
          else if is_decimal c then strip_refs_from (Some (c :: d :: ds)) s'
          else if char_eqb c lbracket then
            flush pending ++ strip_refs_from (Some []) s'
          else flush pending ++ c :: strip_refs_from None s'
      | Some [] =>
          if is_decimal c then strip_refs_from (Some [c]) s'
          else if char_eqb c lbracket then
            flush pending ++ strip_refs_from (Some []) s'
          else flush pending ++ c :: strip_refs_from None s'
      | None =>
          if char_eqb c lbracket then strip_refs_from (Some []) s'
          else c :: strip_refs_from None s'
      end
  end.

Definition strip_refs (s : pystr) : pystr := strip_refs_from None s.

(** [re.sub(r"\s+", " ", text)]: every maximal run of white space
    becomes one space; [in_run] tells that the previous character was
    white space. *)
Fixpoint collapse_ws_from (in_run : bool) (s : pystr) : pystr :=
  match s with
  | [] => []
  | c :: s' =>
      if is_space c then
        if in_run then collapse_ws_from true s'
        else space :: collapse_ws_from true s'
      else c :: collapse_ws_from false s'
  end.

Definition collapse_ws (s : pystr) : pystr := collapse_ws_from false s.

(** [clean_text] (main.py, lines 16-20). *)
Definition clean_text (text : pystr) : pystr :=
  let text := strip text in
  let text := strip_refs text in
  let text := collapse_ws text in
  strip text.

(** ** Exceptions *)

Inductive exn := ValueError | OverflowError.

Inductive result (A : Type) :=
| Ok (a : A)
| Raise (e : exn).
Arguments Ok {A} a.
Arguments Raise {A} e.

Definition bind {A B} (r : result A) (k : A -> result B) : result B :=
  match r with
  | Ok a => k a
  | Raise e => Raise e
  end.

Notation "x <- r ;; k" := (bind r (fun x => k))
  (at level 61, r at next level, right associativity).

(** Runs [f] over a list, left to right, until one call raises. *)
Fixpoint mapM {A B} (f : A -> result B) (l : list A) : result (list B) :=
  match l with
  | [] => Ok []
  | a :: l' => b <- f a ;; bs <- mapM f l' ;; Ok (b :: bs)
  end.

Fixpoint foldM {A S} (f : S -> A -> result S) (l : list A) (s : S) : result S :=
  match l with
  | [] => Ok s
  | a :: l' => s' <- f s a ;; foldM f l' s'
  end.

(** ** Numbers of the interpreter *)

Section Interpreter.

(** [sys.get_int_max_str_digits()]: the longest digit string [int]
    converts (4300 unless configured otherwise; 0 switches the limit
    off, as do the interpreters that predate it). *)
Variable int_max_str_digits : N.

(** [str.lower]: its Unicode case tables are the interpreter's. *)
Variable lower : pystr -> pystr.

(** The value of a string of decimal digits, most significant first. *)
Definition digit_value (c : char) : Z :=
  match to_decimal c with Some d => d | None => 0 end.

Definition digits_value (ds : pystr) : Z :=
  fold_left (fun acc c => 10 * acc + digit_value c) ds 0.

(** White space that [int] skips at both ends of its argument: the
    ASCII white space of C, and every Unicode space above ASCII. *)
Definition is_int_space (c : char) : bool :=
  in_range 9 13 c || char_eqb c space || (N.leb 127 c && is_space c).

Fixpoint int_lstrip (s : pystr) : pystr :=
  match s with
  | c :: s' => if is_int_space c then int_lstrip s' else s
  | [] => []
  end.

Definition int_strip (s : pystr) : pystr :=
  rev (int_lstrip (rev (int_lstrip s))).

(** Digits in groups separated by single underscores, beginning and
    ending with a digit; [prev_digit] tells that the previous character
    was a digit. *)
Fixpoint well_grouped (prev_digit : bool) (s : pystr) : bool :=
  match s with
  | [] => prev_digit
  | c :: s' =>
      if char_eqb c underscore then prev_digit && well_grouped false s'
      else is_decimal c && well_grouped true s'
  end.

(** Strings of at most 640 digits are converted whatever the limit. *)
Definition over_digit_limit (digits : N) : bool :=
  N.ltb 640 digits && N.ltb 0 int_max_str_digits
  && N.ltb int_max_str_digits digits.

Definition plus_sign : char := 43%N.
Definition minus_sign : char := 45%N.

(** [int(s)] for a string [s]. *)
Definition py_int (s : pystr) : result Z :=
  let s := int_strip s in
  let '(negative, body) :=
    match s with
    | c :: s' =>
        if char_eqb c plus_sign then (false, s')
        else if char_eqb c minus_sign then (true, s')
        else (false, s)
    | [] => (false, [])
    end in
  if well_grouped false body then
    let ds := remove_char underscore body in
    if over_digit_limit (N.of_nat (length ds)) then Raise ValueError
    else Ok (if negative then - digits_value ds else digits_value ds)
  else Raise ValueError.

(** [parse_int] (main.py, lines 23-25). *)
Definition parse_int (value : pystr) : result (option Z) :=
  let cleaned := filter is_decimal value in
  if nonempty cleaned then n <- py_int cleaned ;; Ok (Some n) else Ok None.

(** *** Floats

    A [float] is an IEEE 754 binary64 number, [S754_finite s m e]
    standing for [(-1)^s * m * 2^e] with [m < 2^53] and
    [-1074 <= e <= 971]. *)
Definition float := spec_float.

(** [a / b] rounded to the nearest integer, ties to even ([0 < b]). *)
Definition div_half_even (a b : Z) : Z :=
  let q := a / b in
  let r := a mod b in
  if 2 * r <? b then q
  else if b <? 2 * r then q + 1
  else if Z.even q then q else q + 1.

(** [q * 2^l <= p], for an exponent [l] of either sign. *)
Definition scaled_le (q l p : Z) : bool :=
  if 0 <=? l then q * 2 ^ l <=? p else q <=? p * 2 ^ (- l).

(** The double nearest to [p / q] ([0 <= p], [0 < q]), ties to even;
    what the correctly rounded [strtod] returns for a decimal literal
    of that value.  A value past the largest double gives infinity. *)
Definition nearest_double (p q : Z) : float :=
  if p =? 0 then S754_zero false
  else
    let l := Z.log2 p - Z.log2 q in
    let E := if scaled_le q l p then l else l - 1 in
    let ex := Z.max (E - 52) (-1074) in
    let n := if 0 <=? ex then div_half_even p (q * 2 ^ ex)
             else div_half_even (p * 2 ^ (- ex)) q in
    let ex := if n =? 2 ^ 53 then ex + 1 else ex in
    let n := if n =? 2 ^ 53 then 2 ^ 52 else n in
    if 971 <? ex then S754_infinity false
    else match n with
         | Zpos m => S754_finite false m ex
         | _ => S754_zero false
         end.

(** Splits a string at its first dot, if it has one. *)
Fixpoint split_dot (s : pystr) : pystr * option pystr :=
  match s with
  | [] => ([], None)
  | c :: s' =>
      if char_eqb c dot then ([], Some s')
      else let '(a, b) := split_dot s' in (c :: a, b)
  end.

(** [float(s)] for a string [s] of decimal digits and dots, the only
    strings [parse_float] passes to it: such a string is a literal when
    it has a digit and at most one dot.  (The sign, exponent,
    underscores, white space and the names [inf] and [nan] that [float]
    accepts besides cannot occur in such a string.) *)
Definition py_float_plain (s : pystr) : result float :=
  let '(int_part, rest) := split_dot s in
  let frac_part := match rest with Some f => f | None => [] end in
  if forallb is_decimal int_part && forallb is_decimal frac_part
     && nonempty (int_part ++ frac_part)
  then Ok (nearest_double (digits_value (int_part ++ frac_part))
                          (10 ^ Z.of_nat (length frac_part)))
  else Raise ValueError.

(** [round(x, 2)]: infinities and NaN round to themselves; a finite
    [x] is rounded, in exact arithmetic and with ties to even, to a
    multiple of 1/100, which is then converted back to the nearest
    double; a result too large for a double raises. *)
Definition py_round2 (x : float) : result float :=
  match x with
  | S754_finite s m e =>
      let hundredths :=
        if 0 <=? e then 100 * Zpos m * 2 ^ e
        else div_half_even (100 * Zpos m) (2 ^ (- e)) in
      match nearest_double hundredths 100 with
      | S754_infinity _ => Raise OverflowError
      | S754_zero _ => Ok (S754_zero s)
      | r => Ok (if s then SFopp r else r)
      end
  | _ => Ok x
  end.

(** [try: ... except ValueError: handler] *)
Definition except_ValueError {A} (body : result A) (handler : result A)
  : result A :=
  match body with
  | Raise ValueError => handler
  | _ => body
  end.

(** [parse_float] (main.py, lines 28-33). *)
Definition parse_float (value : pystr) : result (option float) :=
  let cleaned := filter (fun c => is_decimal c || char_eqb c dot) value in
  except_ValueError
    (x <- py_float_plain cleaned ;; r <- py_round2 x ;; Ok (Some r))
    (Ok None).

(** ** The parsed page *)

(** A node of the tree BeautifulSoup builds: a piece of text, or a tag
    with its attributes and children in document order. *)
Inductive node :=
| Text (s : pystr)
| Tag (name : pystr) (attrs : list (pystr * pystr)) (children : list node).

Definition tag_name (n : node) : option pystr :=
  match n with Tag name _ _ => Some name | Text _ => None end.

Definition tag_attrs (n : node) : list (pystr * pystr) :=
  match n with Tag _ attrs _ => attrs | Text _ => [] end.

(** [tag.get(key)] *)
Definition get_attr (key : pystr) (n : node) : option pystr :=
  option_map snd (find (fun kv => str_eqb (fst kv) key) (tag_attrs n)).

(** Everything below a node, in document order. *)
Fixpoint descendants (n : node) : list node :=
  match n with
  | Text _ => []
  | Tag _ _ children => flat_map (fun c => c :: descendants c) children
  end.

Definition has_name (names : list pystr) (n : node) : bool :=
  match tag_name n with
  | Some name => existsb (str_eqb name) names
  | None => false
  end.

(** [tag.find_all(names)] *)
Definition find_all (names : list pystr) (n : node) : list node :=
  filter (has_name names) (descendants n).

(** The pieces of text below a node, in document order. *)
Fixpoint strings (n : node) : list pystr :=
  match n with
  | Text s => [s]
  | Tag _ _ children => flat_map strings children
  end.

(** [tag.get_text()] *)
Definition get_text (n : node) : pystr := concat (strings n).

(** [tag.get_text(strip=True)]: every piece is stripped before the
    pieces are joined. *)
Definition get_text_strip (n : node) : pystr := concat (map strip (strings n)).

(** The white-space separated words of a string, as the values of a
    [class] attribute are split; [cur] is the word being read, in
    reverse. *)
Fixpoint words_from (cur : pystr) (s : pystr) : list pystr :=
  match s with
  | [] => match cur with [] => [] | _ => [rev cur] end
  | c :: s' =>
      if is_space c then
        match cur with
        | [] => words_from [] s'
        | _ => rev cur :: words_from [] s'
        end
      else words_from (c :: cur) s'
  end.

Definition words (s : pystr) : list pystr := words_from [] s.

Definition has_class (cls : pystr) (n : node) : bool :=
  match get_attr (str "class") n with
  | Some v => existsb (str_eqb cls) (words v)
  | None => false
  end.

(** [soup.find_all("table", class_="wikitable")] *)
Definition wikitables (soup : node) : list node :=
  filter (has_class (str "wikitable")) (find_all [str "table"] soup).

(** [soup.find(id=value)] *)
Definition find_id (value : pystr) (soup : node) : option node :=
  find (fun n => match get_attr (str "id") n with
                 | Some v => str_eqb v value
                 | None => false
                 end)
       (filter (fun n => match n with Tag _ _ _ => true | Text _ => false end)
               (descendants soup)).

(** ** Table locator *)

(** The lowercased, stripped texts of the header cells of a row. *)
Definition th_texts (row : node) : list pystr :=
  map (fun th => lower (get_text_strip th)) (find_all [str "th"] row).

Definition any_contains (kw : pystr) (texts : list pystr) : bool :=
  existsb (contains kw) texts.

(** [is_results_table] (main.py, lines 36-45). *)
Definition is_results_table (table : node) : bool :=
  existsb (fun row =>
             let headers := th_texts row in
             any_contains (str "party") headers
             && any_contains (str "votes") headers
             && any_contains (str "seats") headers)
          (find_all [str "tr"] table).

(** [find_results_table] (main.py, lines 48-53). *)
Definition find_results_table (soup : node) : option node :=
  find is_results_table (wikitables soup).

(** [is_constituency_table] (main.py, lines 57-63). *)
Definition is_constituency_table (table : node) : bool :=
  existsb (fun row => any_contains (str "constituency") (th_texts row))
          (find_all [str "tr"] table).

(** [find_constituency_table] (main.py, lines 66-73). *)
Definition find_constituency_table (soup : node) : option node :=
  match find_id (str "By_constituency") soup with
  | None => None
  | Some _ => find is_constituency_table (wikitables soup)
  end.

(** ** Header row and logical columns *)

(** The first row, with its index, one of whose header cells mentions
    [kw]: the search loop that opens both extractors. *)
Fixpoint find_header_row (kw : pystr) (i : nat) (rows : list node)
  : option (nat * node) :=
  match rows with
  | [] => None
  | row :: rows' =>
      if any_contains kw (th_texts row) then Some (i, row)
      else find_header_row kw (S i) rows'
  end.

(** [int(th.get("colspan", 1))] *)
Definition colspan (th : node) : result Z :=
  match get_attr (str "colspan") th with
  | Some v => py_int v
  | None => Ok 1
  end.

(** The flat header list: each header label once per column it spans. *)
Definition expand_headers (header_row : node) : result (list pystr) :=
  cols <- mapM (fun th =>
                  let text := lower (clean_text (get_text th)) in
                  span <- colspan th ;;
                  Ok (repeat text (Z.to_nat span)))
               (find_all [str "th"] header_row) ;;
  Ok (concat cols).

(** The index of the first header that contains [name], counting from
    [i]. *)
Fixpoint first_index (name : pystr) (i : Z) (headers : list pystr) : option Z :=
  match headers with
  | [] => None
  | h :: hs => if contains name h then Some i else first_index name (i + 1) hs
  end.

(** [col_idx]: the names are tried in turn. *)
Fixpoint col_idx (headers : list pystr) (names : list pystr) : option Z :=
  match names with
  | [] => None
  | name :: names' =>
      match first_index name 0 headers with
      | Some i => Some i
      | None => col_idx headers names'
      end
  end.

(** [[i for i, h in enumerate(headers) if keep(h)]] *)
Fixpoint indices_where (keep : pystr -> bool) (i : Z) (headers : list pystr)
  : list Z :=
  match headers with
  | [] => []
  | h :: hs =>
      if keep h then i :: indices_where keep (i + 1) hs
      else indices_where keep (i + 1) hs
  end.

(** [x == 0] for an optional index. *)
Definition is_zero (idx : option Z) : bool :=
  match idx with Some i => i =? 0 | None => false end.

(** ** Constituency table extractor *)

Record candidate := {
  c_candidate : pystr;
  c_party : pystr;
  c_votes : option Z;
  c_percentage : option float
}.

(** An entry of the [constituencies] dictionary while rows are read. *)
Record group := {
  g_constituency : pystr;
  g_electorate : option Z;
  g_turnout : option Z;
  g_turnout_pct : option float;
  g_candidates : list candidate
}.

Record winner := {
  w_candidate : option pystr;
  w_party : option pystr;
  w_votes : option Z
}.

(** An entry of the list the extractor returns. *)
Record constituency := {
  constituency_name : pystr;
  electorate : option Z;
  turnout : option Z;
  turnout_pct : option float;
  total_votes : Z;
  winner_of : winner;
  candidates : list candidate
}.

(** The logical columns resolved from the header list. *)
Record columns := {
  const_col : option Z;
  elect_col : option Z;
  turnout_col : option Z;
  party_col : option Z;
  candidate_col : option Z;
  votes_col : option Z;
  turnout_pct_col : option Z;
  pct_col : option Z
}.

Definition is_pct_header (h : pystr) : bool :=
  str_eqb (strip h) (str "%") || str_eqb (strip h) (str "percentage").

(** main.py, lines 113-121. *)
Definition resolve_columns (headers : list pystr) : columns :=
  let pct_indices := indices_where is_pct_header 0 headers in
  {| const_col := col_idx headers [str "constituency"];
     elect_col := col_idx headers [str "electorate"];
     turnout_col := col_idx headers [str "turnout"];
     party_col := col_idx headers [str "party"; str "political"];
     candidate_col := col_idx headers [str "candidate"];
     votes_col := col_idx headers [str "votes"];
     turnout_pct_col := match pct_indices with i :: _ => Some i | [] => None end;
     pct_col := match pct_indices with
                | _ :: i :: _ => Some i
                | [i] => Some i
                | [] => None
                end |}.

(** The dictionary [constituencies] keeps its keys in insertion order. *)
Definition dict := list (pystr * group).

Fixpoint dict_mem (k : pystr) (d : dict) : bool :=
  match d with
  | [] => false
  | (k', _) :: d' => str_eqb k' k || dict_mem k d'
  end.

(** [d[k] = v] for a key that is not in [d]. *)
Definition dict_add (k : pystr) (v : group) (d : dict) : dict := d ++ [(k, v)].

(** [d[k]["candidates"].append(c)] *)
Fixpoint dict_append (k : pystr) (c : candidate) (d : dict) : dict :=
  match d with
  | [] => []
  | (k', g) :: d' =>
      if str_eqb k' k then
        (k', {| g_constituency := g_constituency g;
                g_electorate := g_electorate g;
                g_turnout := g_turnout g;
                g_turnout_pct := g_turnout_pct g;
                g_candidates := g_candidates g ++ [c] |}) :: d'
      else (k', g) :: dict_append k c d'
  end.

(** [d.get(k)] *)
Definition dict_get (k : pystr) (d : dict) : option group :=
  option_map snd (find (fun kv => str_eqb (fst kv) k) d).


(** The variables the row loop carries from row to row. *)
Record loop_state := {
  constituencies : dict;
  current_constituency : option pystr
}.

Definition initial_state : loop_state :=
  {| constituencies := []; current_constituency := None |}.

(** The keywords of line 132. *)
Definition constituency_footer_keywords : list pystr :=
  [str "total"; str "source"; str "valid votes"; str "invalid";
   str "registered"].

(** The keywords of line 266. *)
Definition summary_footer_keywords : list pystr :=
  [str "total"; str "source"; str "valid"; str "invalid"; str "registered";
   str "blank"].

(** [any(kw in row_text for kw in keywords)] on the cleaned, lowercased
    text of the row. *)
Definition has_keyword (keywords : list pystr) (row : node) : bool :=
  let row_text := lower (clean_text (get_text row)) in
  existsb (fun kw => contains kw row_text) keywords.

(** Truthiness of [first_cell.get("rowspan")]. *)
Definition has_rowspan (cell : node) : bool :=
  match get_attr (str "rowspan") cell with
  | Some v => nonempty v
  | None => false
  end.

(** [is_new] (main.py, lines 137-141). *)
Definition is_new (cols : columns) (first_cell : node) : bool :=
  let first_cell_text := clean_text (get_text first_cell) in
  has_rowspan first_cell
  || (is_zero (const_col cols)
      && nonempty first_cell_text
      && negb (isdigit (remove_char dot (remove_char comma first_cell_text)))).

(** [data_cells] (main.py, line 149). *)
Definition data_cells_of (new : bool) (cells : list node) : list node :=
  if new then skipn 1 cells else cells.

(** The local function [get] of the constituency extractor
    (main.py, lines 151-157). *)
Definition get (data_cells : list node) (idx : option Z) : pystr :=
  match idx with
  | None => []
  | Some idx =>
      let adjusted := idx - 1 in
      if (0 <=? adjusted) && (adjusted <? Z.of_nat (length data_cells)) then
        match nth_error data_cells (Z.to_nat adjusted) with
        | Some cell => clean_text (get_text cell)
        | None => []
        end
      else []
  end.

(** Where the body of the row loop ends for a row: at one of its four
    [continue] statements, or after appending a candidate. *)
Inductive row_exit :=
| NoCells
| FooterRow
| NoConstituency
| NoCandidate
| Appended.

Definition is_truthy (s : option pystr) : bool :=
  match s with Some s => nonempty s | None => false end.

(** The body of the row loop (main.py, lines 127-187): the exit taken
    and the state after the row. *)
Definition process_row (cols : columns) (st : loop_state) (row : node)
  : result (row_exit * loop_state) :=
  let cells := find_all [str "td"; str "th"] row in
  match cells with
  | [] => Ok (NoCells, st)
  | first_cell :: _ =>
      if has_keyword constituency_footer_keywords row then Ok (FooterRow, st)
      else
        let first_cell_text := clean_text (get_text first_cell) in
        let new := is_new cols first_cell in
        let current :=
          if new && nonempty first_cell_text then Some first_cell_text
          else current_constituency st in
        let st := {| constituencies := constituencies st;
                     current_constituency := current |} in
        match current with
        | Some name =>
            if negb (nonempty name) then Ok (NoConstituency, st)
            else
              let data_cells := data_cells_of new cells in
              let electorate := if new then get data_cells (elect_col cols) else [] in
              let turnout := if new then get data_cells (turnout_col cols) else [] in
              let t_pct := if new then get data_cells (turnout_pct_col cols) else [] in
              let party := get data_cells (party_col cols) in
              let party :=
                match party_col cols with
                | Some i => if nonempty party then party
                            else get data_cells (Some (i + 1))
                | None => party
                end in
              let candidate := get data_cells (candidate_col cols) in
              let votes_str := get data_cells (votes_col cols) in
              let pct_str := get data_cells (pct_col cols) in
              if negb (nonempty candidate) && negb (nonempty votes_str)
              then Ok (NoCandidate, st)
              else
                d <- (if dict_mem name (constituencies st)
                      then Ok (constituencies st)
                      else
                        e <- parse_int electorate ;;
                        t <- parse_int turnout ;;
                        tp <- parse_float t_pct ;;
                        Ok (dict_add name
                              {| g_constituency := name;
                                 g_electorate := e;
                                 g_turnout := t;
                                 g_turnout_pct := tp;
                                 g_candidates := [] |}
                              (constituencies st))) ;;
                v <- parse_int votes_str ;;
                p <- parse_float pct_str ;;
                Ok (Appended,
                    {| constituencies :=
                         dict_append name
                           {| c_candidate := candidate;
                              c_party := party;
                              c_votes := v;
                              c_percentage := p |} d;
                       current_constituency := current |})
        | None => Ok (NoConstituency, st)
        end
  end.

(** The row loop. *)
Definition run_rows (cols : columns) (rows : list node) (st : loop_state)
  : result loop_state :=
  foldM (fun st row => r <- process_row cols st row ;; Ok (snd r)) rows st.

(** The candidates with a known vote count. *)
Definition known (cs : list candidate) : list candidate :=
  filter (fun c => match c_votes c with Some _ => true | None => false end) cs.

Definition votes_key (c : candidate) : Z :=
  match c_votes c with Some v => v | None => 0 end.

(** [max(items, key=key, default=None)]: the running maximum is
    replaced only by an item whose key is strictly greater. *)
Definition py_max {A} (key : A -> Z) (items : list A) : option A :=
  match items with
  | [] => None
  | x :: items' =>
      Some (fold_left (fun best y => if key best <? key y then y else best)
                      items' x)
  end.

(** [sum(values)] *)
Definition py_sum (values : list Z) : Z := fold_left Z.add values 0.

(** The entry built for one group (main.py, lines 191-210). *)
Definition summarise (name : pystr) (data : group) : constituency :=
  let cands := g_candidates data in
  let total := py_sum (map votes_key (known cands)) in
  let w := py_max votes_key (known cands) in
  {| constituency_name := name;
     electorate := g_electorate data;
     turnout := g_turnout data;
     turnout_pct := g_turnout_pct data;
     total_votes := total;
     winner_of :=
       {| w_candidate := option_map c_candidate w;
          w_party := option_map c_party w;
          w_votes := match w with Some c => c_votes c | None => None end |};
     candidates := cands |}.

(** [parse_by_constituency_table] (main.py, lines 76-212). *)
Definition parse_by_constituency_table (table : node)
  : result (list constituency) :=
  let rows := find_all [str "tr"] table in
  match find_header_row (str "constituency") 0 rows with
  | None => Ok []
  | Some (header_row_idx, header_row) =>
      headers <- expand_headers header_row ;;
      let cols := resolve_columns headers in
      st <- run_rows cols (skipn (S header_row_idx) rows) initial_state ;;
      Ok (map (fun kv => summarise (fst kv) (snd kv)) (constituencies st))
  end.

(** ** Summary table extractor *)

Record party_result := {
  r_party : pystr;
  r_votes : option Z;
  r_percentage : option float;
  r_seats : option Z;
  r_change : pystr
}.

Record summary_columns := {
  s_party_col : option Z;
  s_votes_col : option Z;
  s_seats_col : option Z;
  s_pct_col : option Z;
  s_change_col : option Z
}.

(** main.py, lines 252-257. *)
Definition resolve_summary_columns (headers : list pystr) : summary_columns :=
  {| s_party_col := col_idx headers [str "party"];
     s_votes_col := col_idx headers [str "votes"];
     s_seats_col := col_idx headers [str "seats"];
     s_pct_col :=
       match indices_where (fun h => str_eqb (strip h) (str "%")) 0 headers with
       | i :: _ => Some i
       | [] => None
       end;
     s_change_col := col_idx headers [str "+"; str "change"; str "swing"] |}.

(** The local function [get] of the summary extractor (main.py, lines
    269-272); the indices it is given are never negative. *)
Definition summary_get (cells : list node) (idx : option Z) : pystr :=
  match idx with
  | Some idx =>
      if idx <? Z.of_nat (length cells) then
        match nth_error cells (Z.to_nat idx) with
        | Some cell => clean_text (get_text cell)
        | None => []
        end
      else []
  | None => []
  end.

Inductive summary_exit :=
| SNoCells
| SFooterRow
| SNoParty
| SAppended.

(** The body of the row loop of the summary extractor (main.py, lines
    261-292): the exit taken and the [results] list after the row. *)
Definition process_summary_row (cols : summary_columns)
    (results : list party_result) (row : node)
  : result (summary_exit * list party_result) :=
  let cells := find_all [str "td"; str "th"] row in
  match cells with
  | [] => Ok (SNoCells, results)
  | _ :: _ =>
      if has_keyword summary_footer_keywords row then Ok (SFooterRow, results)
      else
        let party := summary_get cells (s_party_col cols) in
        let party :=
          match s_party_col cols with
          | Some i => if nonempty party then party
                      else summary_get cells (Some (i + 1))
          | None => party
          end in
        let votes := summary_get cells (s_votes_col cols) in
        let pct := summary_get cells (s_pct_col cols) in
        let seats := summary_get cells (s_seats_col cols) in
        let change := summary_get cells (s_change_col cols) in
        if negb (nonempty party) && negb (nonempty votes)
        then Ok (SNoParty, results)
        else
          v <- parse_int votes ;;
          p <- parse_float pct ;;
          s <- parse_int seats ;;
          Ok (SAppended,
              results ++ [{| r_party := party;
                             r_votes := v;
                             r_percentage := p;
                             r_seats := s;
                             r_change := change |}])
  end.

(** [parse_results_table] (main.py, lines 214-294). *)
Definition parse_results_table (table : node) : result (list party_result) :=
  let rows := find_all [str "tr"] table in
  match find_header_row (str "votes") 0 rows with
  | None => Ok []
  | Some (header_row_idx, header_row) =>
      headers <- expand_headers header_row ;;
      let cols := resolve_summary_columns headers in
      foldM (fun results row =>
               r <- process_summary_row cols results row ;; Ok (snd r))
            (skipn (S header_row_idx) rows) []
  end.

(** ** The constituency stage of the script *)

(** What the last part of the script (main.py, lines 413-431) does
    with a parsed page: it writes the constituency file, or prints that
    the page has no constituency section, or does neither. *)
Inductive effect :=
| WriteConstituencyFile (constituencies : list constituency)
| PrintNoSection.

Definition constituency_stage (soup : node) : result (list effect) :=
  match find_constituency_table soup with
  | Some const_table =>
      cs <- parse_by_constituency_table const_table ;;
      match cs with
      | [] => Ok []
      | _ :: _ => Ok [WriteConstituencyFile cs]
      end
  | None => Ok [PrintNoSection]
  end.

End Interpreter.

(** ** Printing counts

    The script prints a vote count [v] as [f"{v:,}"] (main.py, lines 406
    and 428): the decimal digits of the number, with a comma before
    every group of three digits counted from the right. *)

(** The decimal digits of [n], most significant first, for
    [0 <= n < 10 ^ fuel]. *)
Fixpoint digits_of (fuel : nat) (n : Z) : pystr :=
  match fuel with
  | O => []
  | S fuel' =>
      if n <? 10 then [Z.to_N (48 + n)]
      else digits_of fuel' (n / 10) ++ [Z.to_N (48 + n mod 10)]
  end.

(** [str(n)] for a number that is not negative. *)
Definition py_str_nat (n : Z) : pystr :=
  digits_of (S (Z.to_nat (Z.log2 n))) n.

(** Commas after every third character of a reversed digit string that
    has more characters after it. *)
Fixpoint group_thousands (rev_digits : pystr) : pystr :=
  match rev_digits with
  | a :: b :: c :: rest =>
      match rest with
      | [] => [a; b; c]
      | _ :: _ => a :: b :: c :: comma :: group_thousands rest
      end
  | _ => rev_digits
  end.

(** [f"{n:,}"] for a number that is not negative. *)
Definition format_commas (n : Z) : pystr :=
  rev (group_thousands (rev (py_str_nat n))).

(** ** Sample pages *)

(** [str.lower] on ASCII text, on which the samples below are run. *)
Definition ascii_lower (s : pystr) : pystr :=
  map (fun c => if in_range 65 90 c then (c + 32)%N else c) s.

Definition elem (name : string) (attrs : list (string * string))
    (children : list node) : node :=
  Tag (str name) (map (fun kv => (str (fst kv), str (snd kv))) attrs) children.

Definition cell (name : string) (attrs : list (string * string))
    (text : string) : node :=
  elem name attrs [Text (str text)].

(** A constituency table in which a candidate is named Blanket, a
    first cell declares a span of one row, and a constituency comes
    back after another one. *)
Definition sample_table : node :=
  elem "table" [("class", "wikitable sortable")]
    [elem "tr" [] [cell "th" [] "Constituency"; cell "th" [] "Party";
                   cell "th" [] "Candidate"; cell "th" [] "Votes"];
     elem "tr" [] [cell "td" [("rowspan", "2")] "Carriacou";
                   cell "td" [] ""; cell "td" [] "A. Adams";
                   cell "td" [] "1,000"];
     elem "tr" [] [cell "td" [] ""; cell "td" [] "B. Blanket";
                   cell "td" [] "2,500"];
     elem "tr" [] [cell "td" [("rowspan", "1")] "St. Mark";
                   cell "td" [] ""; cell "td" [] "C. Clarke";
                   cell "td" [] "n/a"];
     elem "tr" [] [cell "td" [] "Carriacou"; cell "td" [] "";
                   cell "td" [] "D. Dean"; cell "td" [] "12"];
     elem "tr" [] [cell "td" [] "Total"; cell "td" [] "3,512"]].

(** A page that holds the table but no element with the id
    [By_constituency]. *)
Definition sample_page_without_anchor : node :=
  elem "html" [] [elem "h2" [("id", "Results")] [Text (str "Results")];
                  sample_table].

Definition sample_page : node :=
  elem "html" [] [elem "h3" [("id", "By_constituency")] [];
                  sample_table].

(** The row of Mr Blanket in the sample table, the columns of that
    table and the state in which the loop reaches the row. *)
Definition blanket_row : node :=
  elem "tr" [] [cell "td" [] ""; cell "td" [] "B. Blanket";
                cell "td" [] "2,500"].

Definition sample_columns : columns :=
  resolve_columns [str "constituency"; str "party"; str "candidate";
                   str "votes"].

(** The first cell of the fourth row of the sample table, with a
    numeric text in place of the name. *)
Definition span_one_cell : node := cell "td" [("rowspan", "1")] "700".

(** A summary table whose party column spans a colour swatch and a
    name, and a page that holds it. *)
Definition sample_results_table : node :=
  elem "table" [("class", "wikitable")]
    [elem "tr" [] [cell "th" [("colspan", "2")] "Party";
                   cell "th" [] "Votes"; cell "th" [] "%";
                   cell "th" [] "Seats"; cell "th" [] "+/-"];
     elem "tr" [] [cell "td" [] ""; cell "td" [] "Acme Party";
                   cell "td" [] "12,345"; cell "td" [] "55.5%";
                   cell "td" [] "7"; cell "td" [] "+2"];
     elem "tr" [] [cell "td" [("colspan", "2")] "Total";
                   cell "td" [] "12,345"; cell "td" [] "100";
                   cell "td" [] "7"; cell "td" [] ""]].

Definition sample_results_page : node :=
  elem "html" []
    [elem "table" [("class", "infobox")]
       [elem "tr" [] [cell "th" [] "Party"; cell "th" [] "Votes";
                      cell "th" [] "Seats"]];
     sample_results_table].

(** The rows of the sample constituency table below its header row, and
    the state in which the row loop leaves them. *)
Definition sample_rows : list node :=
  skipn 1 (find_all [str "tr"] sample_table).

Definition state_after (rows : list node) : loop_state :=
  match run_rows 4300 ascii_lower sample_columns rows initial_state with
  | Ok st => st
  | Raise _ => initial_state
  end.


(** The headers of a table with one percentage column, and a row of it
    that starts a group. *)
Definition one_pct_headers : list pystr :=
  [str "constituency"; str "candidate"; str "votes"; str "%"].

Definition one_pct_row : node :=
  elem "tr" [] [cell "td" [("rowspan", "2")] "Carriacou";
                cell "td" [] "A. Adams"; cell "td" [] "1,000";
                cell "td" [] "55.5%"].

(** A table whose header row has a column span that is no number. *)
Definition bad_span_cell : node := cell "th" [("colspan", "two")] "Party".

Definition bad_span_header : node :=
  elem "tr" [] [cell "th" [] "Constituency"; bad_span_cell;
                cell "th" [] "Votes"; cell "th" [] "Seats"].

Definition bad_span_table : node :=
  elem "table" [("class", "wikitable")]
    [bad_span_header;
     elem "tr" [] [cell "td" [] "Carriacou"; cell "td" [] "Acme";
                   cell "td" [] "10"; cell "td" [] "1"]].



(** ** The conditions as the specification words them *)

(** "The same footer-keyword set used in 4.2, plus registered". *)
Definition claimed_footer_keywords : list pystr :=
  summary_footer_keywords ++ [str "registered"].

(** "Its first cell declares a vertical span greater than one". *)
Definition declares_span_above_one (limit : N) (first_cell : node) : bool :=
  match get_attr (str "rowspan") first_cell with
  | Some v => match py_int limit v with Ok n => 1 <? n | Raise _ => false end
  | None => false
  end.

(** "Purely numeric": digits, commas and periods, with a digit. *)
Definition purely_numeric (text : pystr) : Prop :=
  (exists c, In c text /\ is_digit_char c = true) /\
  (forall c, In c text -> is_digit_char c = true \/ c = comma \/ c = dot).

(** "A row starts a new constituency group if its first cell declares
    a vertical span greater than one, or if the constituency column is
    the first logical column and the first cell's text is non-empty and
    not purely numeric". *)
Definition claimed_is_new (limit : N) (cols : columns) (first_cell : node)
  : bool :=
  let first_cell_text := clean_text (get_text first_cell) in
  declares_span_above_one limit first_cell
  || (is_zero (const_col cols)
      && nonempty first_cell_text
      && negb (isdigit (remove_char dot (remove_char comma first_cell_text)))).

(** "The sum of all candidate vote counts with known values (nulls
    excluded from the sum, not treated as zero)". *)
Fixpoint sum_known (votes : list (option Z)) : Z :=
  match votes with
  | [] => 0
  | Some v :: rest => v + sum_known rest
  | None :: rest => sum_known rest
  end.

(** "The candidate with the maximum vote count among those with a known
    value", the first such candidate in candidate order; "if no
    candidate has a known vote count, winner is entirely null". *)
Definition first_maximum (cs : list candidate) (w : winner) : Prop :=
  ((forall c, In c cs -> c_votes c = None)
   /\ w = {| w_candidate := None; w_party := None; w_votes := None |})
  \/ exists before c after v,
       cs = before ++ c :: after
       /\ c_votes c = Some v
       /\ (forall c' v', In c' before -> c_votes c' = Some v' -> v' < v)
       /\ (forall c' v', In c' after -> c_votes c' = Some v' -> v' <= v)
       /\ w = {| w_candidate := Some (c_candidate c);
                 w_party := Some (c_party c);
                 w_votes := Some v |}.

Definition well_summarised (c : constituency) : Prop :=
  total_votes c = sum_known (map c_votes (candidates c))
  /\ first_maximum (candidates c) (winner_of c).

(** "A page lacking the by-constituency anchor": no element of the page
    has the id [By_constituency]. *)
Definition lacks_anchor (soup : node) : Prop :=
  forall n, In n (descendants soup) ->
            get_attr (str "id") n <> Some (str "By_constituency").

(** The finite doubles: a significand below [2^53] and an exponent of
    at most 971. *)
Definition bounded (x : float) : Prop :=
  match x with
  | S754_finite _ m e => Zpos m < 2 ^ 53 /\ e <= 971
  | _ => True
  end.

(** The number of dots of a string. *)
Definition count_dots (s : pystr) : nat :=
  length (filter (fun c => char_eqb c dot) s).

(** The characters [parse_float] keeps: decimal digits and dots. *)
Definition float_char (c : char) : bool := is_decimal c || char_eqb c dot.

(** The cleaned text of physical cell [j] of a row, empty when the row
    has no such cell. *)
Definition cell_text_at (cells : list node) (j : Z) : pystr :=
  if j <? 0 then []
  else match nth_error cells (Z.to_nat j) with
       | Some c => clean_text (get_text c)
       | None => []
       end.

(** "When a row starts a new group, its first cell is consumed and the
    remaining logical columns shift left by one; non-starting rows are
    not shifted": logical column [i] of a starting row comes from
    position [i - 1] of the cells that remain, that of another row from
    physical cell [i]. *)
Definition claimed_read (new : bool) (cells : list node) (i : Z) : pystr :=
  if new then cell_text_at (skipn 1 cells) (i - 1) else cell_text_at cells i.



(** The text after the first dot of a string. *)
Fixpoint after_dot (s : pystr) : pystr :=
  match s with
  | [] => []
  | c :: s' => if char_eqb c dot then s' else after_dot s'
  end.

(** The number the digits and the dot of a string spell, as a fraction:
    all its digits read as one integer, over ten to the number of digits
    that stand after the dot. *)
Definition kept_numerator (s : pystr) : Z := digits_value (filter is_decimal s).

Definition kept_denominator (s : pystr) : Z :=
  10 ^ Z.of_nat (length (filter is_decimal (after_dot s))).

(** [d] is the integer nearest to [a / b], the even one of two that are
    equally near ([0 < b]). *)
Definition nearest_integer (a b d : Z) : Prop :=
  2 * Z.abs (a - d * b) <= b
  /\ (2 * Z.abs (a - d * b) = b -> Z.even d = true).

(** [d] is the integer nearest to [p / (q * 2^e)]. *)
Definition nearest_scaled (p q e d : Z) : Prop :=
  if 0 <=? e then nearest_integer p (q * 2 ^ e) d
  else nearest_integer (p * 2 ^ (- e)) q d.

(** [k * 2^e <= p / q]. *)
Definition at_least (p q k e : Z) : Prop :=
  if 0 <=? e then k * q * 2 ^ e <= p else k * q <= p * 2 ^ (- e).

(** [x] is the double to which the fraction [p / q] rounds ([0 <= p],
    [0 < q]), by IEEE 754 rounding to nearest, ties to even: a
    significand [m] below [2^53], of at least [2^52] unless the exponent
    is the least one, that is the integer nearest to [p / (q * 2^e)];
    a significand of exactly [2^52] stands for a fraction that is not
    nearer to the double below, where doubles lie twice as dense; zero
    for a fraction that rounds to no unit of the least exponent; and
    infinity from [(2^53 - 1/2) * 2^971] on. *)
Definition rounds_to_double (p q : Z) (x : float) : Prop :=
  match x with
  | S754_zero false => nearest_scaled p q (-1074) 0
  | S754_finite false m e =>
      Zpos m < 2 ^ 53 /\ -1074 <= e <= 971
      /\ (2 ^ 52 <= Zpos m \/ e = -1074)
      /\ nearest_scaled p q e (Zpos m)
      /\ (Zpos m = 2 ^ 52 -> -1074 < e -> at_least p q (2 ^ 54 - 1) (e - 2))
  | S754_infinity false => at_least p q (2 ^ 54 - 1) 970
  | _ => False
  end.

(** "Rounding to 2 decimal places": [r] is the double to which [h / 100]
    rounds, [h] being the integer nearest to a hundred times [x], ties
    to even; zero and infinity are kept. *)
Definition rounded_to_hundredths (x r : float) : Prop :=
  match x with
  | S754_zero false => r = S754_zero false
  | S754_infinity false => r = S754_infinity false
  | S754_finite false m e =>
      exists h, nearest_scaled (100 * Zpos m) 1 (- e) h
                /\ rounds_to_double h 100 r
  | _ => False
  end.

(** ** Auxiliary notions *)

(** The party text of a row of the constituency table, as lines
    163-165 read it: the party column, or the cell after it when that
    one is empty. *)
Definition party_text (cols : columns) (data_cells : list node) : pystr :=
  let party := get data_cells (party_col cols) in
  match party_col cols with
  | Some i => if nonempty party then party else get data_cells (Some (i + 1))
  | None => party
  end.

(** The candidate a row gives, and the group it opens. *)
Definition candidate_of (cols : columns) (data_cells : list node)
    (v : option Z) (p : option float) : candidate :=
  {| c_candidate := get data_cells (candidate_col cols);
     c_party := party_text cols data_cells;
     c_votes := v;
     c_percentage := p |}.

Definition empty_group (name : pystr) (el t : option Z) (tp : option float)
  : group :=
  {| g_constituency := name; g_electorate := el; g_turnout := t;
     g_turnout_pct := tp; g_candidates := [] |}.

(** A group with one more candidate. *)
Definition with_candidate (g : group) (c : candidate) : group :=
  {| g_constituency := g_constituency g;
     g_electorate := g_electorate g;
     g_turnout := g_turnout g;
     g_turnout_pct := g_turnout_pct g;
     g_candidates := g_candidates g ++ [c] |}.


(** The characters of a range, one by one. *)
Definition chars_of_range (r : N * N) : list char :=
  map (fun k => (fst r + N.of_nat k)%N)
      (seq 0 (S (N.to_nat (snd r - fst r)))).

(** [p < q * 2^k], for an exponent [k] of either sign. *)
Definition scaled_lt (p q k : Z) : Prop :=
  if 0 <=? k then p < q * 2 ^ k else p * 2 ^ (- k) < q.

(** What holds of every group of the dictionary while rows are read:
    it has a candidate, and its counts are not negative. *)
Definition group_ok (g : group) : Prop :=
  g_candidates g <> []
  /\ (forall c v, In c (g_candidates g) -> c_votes c = Some v -> 0 <= v)
  /\ (forall n, g_electorate g = Some n -> 0 <= n)
  /\ (forall n, g_turnout g = Some n -> 0 <= n).

Definition dict_ok (d : dict) : Prop := forall k g, In (k, g) d -> group_ok g.

(** [g'] is [g] with candidates added at its end: the name and the
    three figures of the group are those of [g]. *)
Definition extends (g g' : group) : Prop :=
  g_constituency g' = g_constituency g
  /\ g_electorate g' = g_electorate g
  /\ g_turnout g' = g_turnout g
  /\ g_turnout_pct g' = g_turnout_pct g
  /\ exists more, g_candidates g' = g_candidates g ++ more.

(** A text in which every white-space character is U+0020 and no two
    of them are neighbours; [prev] tells that the character before the
    text is white space. *)
Fixpoint single_spaced (prev : bool) (t : pystr) : bool :=
  match t with
  | [] => true
  | c :: t' =>
      if is_space c then char_eqb c space && negb prev && single_spaced true t'
      else single_spaced false t'
  end.

(** What a record of the summary extractor holds: counts that are not
    negative, and a percentage that is a number of hundredths (or the
    infinity that a literal past the largest double gives). *)
Definition party_result_ok (r : party_result) : Prop :=
  (forall v, r_votes r = Some v -> 0 <= v)
  /\ (forall n, r_seats r = Some n -> 0 <= n)
  /\ (forall x, r_percentage r = Some x ->
                x = S754_infinity false
                \/ exists h, 0 <= h /\ x = nearest_double h 100).

(** * Properties *)

(** ** Strings *)

Lemma char_eqb_eq (a b : char) : char_eqb a b = true <-> a = b.
Proof. apply N.eqb_eq. Qed.

Lemma str_eqb_eq (a b : pystr) : str_eqb a b = true <-> a = b.
Proof.
  revert b; induction a as [|x a IH]; intros [|y b]; simpl;
    try (split; [discriminate | congruence]); try tauto.
  rewrite andb_true_iff, char_eqb_eq, IH. split.
  - intros [-> ->]; reflexivity.
  - intros H; injection H; auto.
Qed.

Lemma str_eqb_refl (a : pystr) : str_eqb a a = true.
Proof. apply str_eqb_eq; reflexivity. Qed.

Lemma startswith_spec (p s : pystr) :
  startswith p s = true <-> exists b, s = p ++ b.
Proof.
  revert s; induction p as [|x p IH]; intros s; simpl.
  - split; [intros _; exists s; reflexivity | reflexivity].
  - destruct s as [|y s].
    + split; [discriminate | intros [b H]; discriminate].
    + rewrite andb_true_iff, char_eqb_eq, IH. split.
      * intros [-> [b ->]]; exists b; reflexivity.
      * intros [b H]; injection H as -> ->; split; [reflexivity | exists b; reflexivity].
Qed.

(** [p in s] holds exactly when [s] is some text, then [p], then some
    text. *)
Lemma contains_spec (p s : pystr) :
  contains p s = true <-> exists a b, s = a ++ p ++ b.
Proof.
  induction s as [|y s IH].
  - simpl. rewrite orb_false_r, startswith_spec. split.
    + intros [b H]; exists [], b; exact H.
    + intros [a [b H]]. destruct a; [exists b; exact H | discriminate].
  - cbn [contains]. rewrite orb_true_iff, startswith_spec, IH. split.
    + intros [[b H] | [a [b H]]].
      * exists [], b; exact H.
      * exists (y :: a), b; rewrite H; reflexivity.
    + intros [a [b H]]. destruct a as [|x a].
      * left; exists b; exact H.
      * right; injection H as _ H; exists a, b; exact H.
Qed.

Lemma existsb_contains (keywords : list pystr) (text : pystr) :
  existsb (fun kw => contains kw text) keywords = true <->
  exists kw a b, In kw keywords /\ text = a ++ kw ++ b.
Proof.
  rewrite existsb_exists. split.
  - intros [kw [Hin H]]. apply contains_spec in H as [a [b H]]. eauto.
  - intros [kw [a [b [Hin H]]]]. exists kw. split; [exact Hin|].
    apply contains_spec; eauto.
Qed.

(** ** Footer rows (C1) *)

(** Splits the goal along the tests of a loop body. *)
Ltac break_body :=
  repeat match goal with
         | |- context [match ?x with _ => _ end] =>
             match type of x with
             | sumbool _ _ => fail 1
             | _ => destruct x eqn:?
             end
         end.

Lemma process_row_footer_state (limit : N) (lower : pystr -> pystr)
    (cols : columns) (st st' : loop_state) (row : node) :
  process_row limit lower cols st row = Ok (FooterRow, st') ->
  find_all [str "td"; str "th"] row <> []
  /\ has_keyword lower constituency_footer_keywords row = true
  /\ st' = st.
Proof.
  unfold process_row. destruct (find_all _ row) as [|first_cell cells] eqn:Hcells.
  - discriminate.
  - destruct (has_keyword lower constituency_footer_keywords row) eqn:Hkw.
    + intros H; injection H as <-. repeat split; discriminate.
    + unfold bind. break_body; discriminate.
Qed.

(** C1, as the code has it: a row with cells is skipped as a footer row
    exactly when its cleaned, lowercased text contains one of "total",
    "source", "valid votes", "invalid" and "registered"; the row then
    leaves the state of the loop as it was, and a row without any of
    these keywords is never skipped for that reason. *)
Theorem footer_row_iff_keyword (limit : N) (lower : pystr -> pystr)
    (cols : columns) (st : loop_state) (row : node) :
  ((exists st', process_row limit lower cols st row = Ok (FooterRow, st'))
   <->
   (find_all [str "td"; str "th"] row <> [] /\
    exists kw a b,
      In kw [str "total"; str "source"; str "valid votes"; str "invalid";
             str "registered"] /\
      lower (clean_text (get_text row)) = a ++ kw ++ b))
  /\ (forall st', process_row limit lower cols st row = Ok (FooterRow, st') ->
                  st' = st).
Proof.
  split; [split|].
  - intros [st' H]. apply process_row_footer_state in H as [Hc [Hk _]].
    split; [exact Hc|]. apply existsb_contains in Hk. exact Hk.
  - intros [Hc Hk]. exists st. unfold process_row.
    destruct (find_all _ row) as [|first_cell cells]; [congruence|].
    apply existsb_contains in Hk. fold constituency_footer_keywords in Hk.
    unfold has_keyword. rewrite Hk. reflexivity.
  - intros st' H. apply process_row_footer_state in H. tauto.
Qed.

(** C1 as the specification states it fails: the text of the Blanket
    row contains "blank", a keyword of the set of section 4.2, and the
    row, reached in the state the first data row leaves, is not skipped
    but gives a candidate. *)
Lemma blanket_row_not_skipped :
  has_keyword ascii_lower claimed_footer_keywords blanket_row = true
  /\ nth_error (find_all [str "tr"] sample_table) 2 = Some blanket_row
  /\ exists st st',
       run_rows 4300 ascii_lower sample_columns
         (firstn 1 (skipn 1 (find_all [str "tr"] sample_table)))
         initial_state = Ok st
       /\ process_row 4300 ascii_lower sample_columns st blanket_row
          = Ok (Appended, st').
Proof.
  split; [vm_compute; reflexivity|].
  split; [vm_compute; reflexivity|].
  eexists. eexists. split; vm_compute; reflexivity.
Qed.

(** ** Rows that start a group (C2) *)

Lemma nonempty_true (s : pystr) : nonempty s = true <-> s <> [].
Proof. destruct s; simpl; split; congruence. Qed.

Lemma in_remove_char (c x : char) (s : pystr) :
  In x (remove_char c s) <-> In x s /\ x <> c.
Proof.
  unfold remove_char. rewrite filter_In, negb_true_iff.
  split; intros [H1 H2]; split; auto.
  - intros ->. unfold char_eqb in H2. rewrite N.eqb_refl in H2. discriminate.
  - apply not_true_is_false. rewrite char_eqb_eq. exact H2.
Qed.

(** [s.replace(",", "").replace(".", "").isdigit()] tells that [s] is
    purely numeric. *)
Lemma isdigit_purely_numeric (s : pystr) :
  isdigit (remove_char dot (remove_char comma s)) = true <-> purely_numeric s.
Proof.
  unfold isdigit, purely_numeric.
  rewrite andb_true_iff, forallb_forall, nonempty_true.
  assert (Hc : is_digit_char comma = false) by (vm_compute; reflexivity).
  assert (Hd : is_digit_char dot = false) by (vm_compute; reflexivity).
  split.
  - intros [Hne Hall]. split.
    + destruct (remove_char dot (remove_char comma s)) as [|c t] eqn:E;
        [congruence|].
      assert (Hin : In c (remove_char dot (remove_char comma s)))
        by (rewrite E; left; reflexivity).
      exists c. split; [|apply Hall; left; reflexivity].
      apply in_remove_char in Hin as [Hin _].
      apply in_remove_char in Hin as [Hin _]. exact Hin.
    + intros c Hin.
      destruct (N.eq_dec c comma) as [->|Hnc]; [tauto|].
      destruct (N.eq_dec c dot) as [->|Hnd]; [tauto|].
      left. apply Hall. apply in_remove_char. split; [|exact Hnd].
      apply in_remove_char. split; assumption.
  - intros [[c [Hin Hdig]] Hall]. split.
    + assert (H : In c (remove_char dot (remove_char comma s))).
      { apply in_remove_char. split.
        - apply in_remove_char. split; [exact Hin|]. intros ->. congruence.
        - intros ->. congruence. }
      intros E. rewrite E in H. exact H.
    + intros x Hx. apply in_remove_char in Hx as [Hx Hnd].
      apply in_remove_char in Hx as [Hx Hnc].
      destruct (Hall x Hx) as [H | [H | H]]; congruence.
Qed.

(** C2, as the code has it: a row starts a new group exactly when its
    first cell carries a [rowspan] attribute with a non-empty value,
    whatever the span it declares (a span of one included), or the
    constituency column is logical column 0 and the text of the first
    cell is non-empty and not purely numeric. *)
Theorem is_new_iff (cols : columns) (first_cell : node) :
  is_new cols first_cell = true <->
  (exists v, get_attr (str "rowspan") first_cell = Some v /\ v <> [])
  \/ (const_col cols = Some 0
      /\ clean_text (get_text first_cell) <> []
      /\ ~ purely_numeric (clean_text (get_text first_cell))).
Proof.
  unfold is_new, has_rowspan, is_zero.
  rewrite orb_true_iff, !andb_true_iff, negb_true_iff, nonempty_true.
  rewrite <- not_true_iff_false, isdigit_purely_numeric.
  split; intros [H | H].
  - left. destruct (get_attr _ first_cell) as [v|]; [|discriminate].
    exists v. split; [reflexivity|]. apply nonempty_true, H.
  - right. destruct H as [[H1 H2] H3].
    destruct (const_col cols) as [i|]; [|discriminate].
    apply Z.eqb_eq in H1 as ->. tauto.
  - left. destruct H as [v [-> Hv]]. apply nonempty_true, Hv.
  - right. destruct H as [-> [H2 H3]]. tauto.
Qed.

(** C2 as the specification states it fails: a first cell that declares
    a span of one row, with a purely numeric text, starts a new group
    although its span is not greater than one. *)
Lemma span_of_one_starts_group :
  is_new sample_columns span_one_cell = true
  /\ claimed_is_new 4300 sample_columns span_one_cell = false
  /\ py_int 4300 (str "1") = Ok 1.
Proof. repeat split; vm_compute; reflexivity. Qed.

(** ** Columns read from a row (C3) *)

Lemma nth_error_skipn_1 {A} (l : list A) (n : nat) :
  nth_error (skipn 1 l) n = nth_error l (S n).
Proof. destruct l; [destruct n|]; reflexivity. Qed.

(** C3, as the code has it: [get] reads logical column [i] from the
    cell at position [i - 1] of [data_cells], on every row.  On a row
    that starts a group, where [data_cells] leaves out the first cell,
    this is physical cell [i] of the row; on any other row it is
    physical cell [i - 1].  Column 0, a column the row has no cell for
    and an unresolved column read as the empty string. *)
Theorem get_reads_cell (cells : list node) (i : Z) :
  get (data_cells_of true cells) (Some i)
  = (if 1 <=? i then cell_text_at cells i else [])
  /\ get (data_cells_of false cells) (Some i)
     = (if 1 <=? i then cell_text_at cells (i - 1) else [])
  /\ get (data_cells_of true cells) None = []
  /\ get (data_cells_of false cells) None = [].
Proof.
  repeat split; unfold get, data_cells_of, cell_text_at.
  - destruct (1 <=? i) eqn:Hi.
    + apply Z.leb_le in Hi.
      replace (0 <=? i - 1) with true by (symmetry; apply Z.leb_le; lia).
      replace (i <? 0) with false by (symmetry; apply Z.ltb_ge; lia).
      rewrite nth_error_skipn_1.
      replace (S (Z.to_nat (i - 1))) with (Z.to_nat i) by lia.
      simpl. destruct (i - 1 <? _) eqn:Hlt; [reflexivity|].
      apply Z.ltb_ge in Hlt.
      destruct (nth_error cells (Z.to_nat i)) eqn:E; [|reflexivity].
      assert (Hn : (Z.to_nat i < length cells)%nat)
        by (apply nth_error_Some; congruence).
      destruct cells as [|c cells]; simpl length in *; lia.
    + apply Z.leb_gt in Hi.
      replace (0 <=? i - 1) with false by (symmetry; apply Z.leb_gt; lia).
      reflexivity.
  - destruct (1 <=? i) eqn:Hi.
    + apply Z.leb_le in Hi.
      replace (0 <=? i - 1) with true by (symmetry; apply Z.leb_le; lia).
      replace (i - 1 <? 0) with false by (symmetry; apply Z.ltb_ge; lia).
      simpl. destruct (i - 1 <? _) eqn:Hlt; [reflexivity|].
      apply Z.ltb_ge in Hlt.
      destruct (nth_error cells (Z.to_nat (i - 1))) eqn:E; [|reflexivity].
      assert (Hn : (Z.to_nat (i - 1) < length cells)%nat)
        by (apply nth_error_Some; congruence).
      lia.
    + apply Z.leb_gt in Hi.
      replace (0 <=? i - 1) with false by (symmetry; apply Z.leb_gt; lia).
      reflexivity.
Qed.

(** C3 as the specification states it fails: on the Blanket row, which
    does not start a group, the candidate column (logical column 2) is
    read from physical cell 1, not from physical cell 2. *)
Lemma unshifted_row_reads_left_cell :
  let cells := find_all [str "td"; str "th"] blanket_row in
  is_new sample_columns (hd (Text []) cells) = false
  /\ candidate_col sample_columns = Some 2
  /\ get (data_cells_of false cells) (Some 2) = str "B. Blanket"
  /\ claimed_read false cells 2 = str "2,500"
  /\ get (data_cells_of false cells) (Some 2) <> claimed_read false cells 2.
Proof.
  repeat split; try (vm_compute; reflexivity). vm_compute. discriminate.
Qed.

(** ** Totals and winners (C4) *)

Lemma fold_left_add (l : list Z) (acc : Z) :
  fold_left Z.add l acc = acc + fold_left Z.add l 0.
Proof.
  revert acc; induction l as [|x l IH]; intros acc; simpl; [lia|].
  rewrite IH, (IH x). lia.
Qed.

Lemma py_sum_known (cs : list candidate) :
  py_sum (map votes_key (known cs)) = sum_known (map c_votes cs).
Proof.
  unfold py_sum, known in *. induction cs as [|c cs IH]; [reflexivity|].
  simpl. destruct (c_votes c) as [v|] eqn:E; simpl; [|exact IH].
  rewrite (fold_left_add _ (votes_key c)), IH.
  unfold votes_key. rewrite E. reflexivity.
Qed.

(** The running maximum ends on the first item of greatest key. *)
Lemma running_max_first {A} (key : A -> Z) (l : list A) (x : A) :
  let r := fold_left (fun best y => if key best <? key y then y else best) l x in
  exists before after,
    x :: l = before ++ r :: after
    /\ (forall y, In y before -> key y < key r)
    /\ (forall y, In y after -> key y <= key r).
Proof.
  induction l as [|y l IH] using rev_ind; simpl.
  - exists [], []. repeat split; simpl; tauto.
  - rewrite fold_left_app. simpl.
    destruct IH as [before [after [E [Hb Ha]]]].
    set (r := fold_left _ l x) in *.
    destruct (key r <? key y) eqn:Hlt.
    + apply Z.ltb_lt in Hlt. exists (x :: l), [].
      split; [reflexivity|]. split; [|simpl; tauto].
      intros z Hz. rewrite E in Hz. apply in_app_or in Hz as [Hz | [<- | Hz]].
      * specialize (Hb z Hz). lia.
      * exact Hlt.
      * specialize (Ha z Hz). lia.
    + apply Z.ltb_ge in Hlt. exists before, (after ++ [y]).
      split; [|split; [exact Hb|]].
      * change (x :: l ++ [y]) with ((x :: l) ++ [y]).
        rewrite E, <- app_assoc. reflexivity.
      * intros z Hz. apply in_app_or in Hz as [Hz | [<- | []]]; auto.
Qed.

Lemma filter_split {A} (f : A -> bool) (l before after : list A) (c : A) :
  filter f l = before ++ c :: after ->
  exists before' after',
    l = before' ++ c :: after'
    /\ filter f before' = before /\ filter f after' = after.
Proof.
  revert before; induction l as [|x l IH]; intros before H; simpl in H.
  - destruct before; discriminate.
  - destruct (f x) eqn:Hx.
    + destruct before as [|y before]; simpl in H; injection H as -> H.
      * exists [], l. repeat split; assumption.
      * destruct (IH _ H) as [b' [a' [-> [Hb Ha]]]].
        exists (y :: b'), a'. simpl. rewrite Hx, Hb. repeat split; assumption.
    + destruct (IH _ H) as [b' [a' [-> [Hb Ha]]]].
      exists (x :: b'), a'. simpl. rewrite Hx. repeat split; assumption.
Qed.

Lemma known_none (cs : list candidate) :
  known cs = [] -> forall c, In c cs -> c_votes c = None.
Proof.
  intros H c Hin. destruct (c_votes c) as [v|] eqn:E; [|reflexivity].
  assert (Hk : In c (known cs)).
  { apply filter_In. split; [exact Hin|]. rewrite E. reflexivity. }
  rewrite H in Hk. destruct Hk.
Qed.

Lemma summarise_winner (name : pystr) (data : group) :
  first_maximum (g_candidates data) (winner_of (summarise name data)).
Proof.
  unfold summarise, first_maximum; simpl.
  destruct (known (g_candidates data)) as [|x l] eqn:Hk; simpl.
  - left. split; [apply known_none; exact Hk | reflexivity].
  - right.
    destruct (running_max_first votes_key l x) as [b [a [E [Hb Ha]]]].
    set (r := fold_left _ l x) in *.
    assert (Hr : In r (known (g_candidates data))).
    { rewrite Hk, E. apply in_or_app. right. left. reflexivity. }
    unfold known in Hr. apply filter_In in Hr as [_ Hr].
    destruct (c_votes r) as [v|] eqn:Er; [|discriminate].
    rewrite <- Hk in E. unfold known in E.
    apply filter_split in E as [b' [a' [E [Eb Ea]]]].
    exists b', r, a', v. split; [exact E|]. split; [exact Er|].
    assert (Kr : votes_key r = v) by (unfold votes_key; rewrite Er; reflexivity).
    repeat split.
    + intros c' v' Hin Hv. assert (Hc : In c' b).
      { rewrite <- Eb. apply filter_In. split; [exact Hin|].
        rewrite Hv. reflexivity. }
      specialize (Hb c' Hc). unfold votes_key at 1 in Hb. rewrite Hv in Hb. lia.
    + intros c' v' Hin Hv. assert (Hc : In c' a).
      { rewrite <- Ea. apply filter_In. split; [exact Hin|].
        rewrite Hv. reflexivity. }
      specialize (Ha c' Hc). unfold votes_key at 1 in Ha. rewrite Hv in Ha. lia.
Qed.

Lemma summarise_sound (name : pystr) (data : group) :
  well_summarised (summarise name data).
Proof.
  split.
  - simpl. apply py_sum_known.
  - apply summarise_winner.
Qed.

(** C4: every group the extractor returns has as [total_votes] the sum
    of the known vote counts of its candidates, unknown counts left
    out, and as [winner] the first candidate, in candidate order, whose
    known count is the greatest, or three nulls when no count is known;
    so the votes 1000, null, 2500 give the total 3500 and the winner's
    votes 2500. *)
Theorem totals_and_winner (limit : N) (lower : pystr -> pystr) (table : node) :
  match parse_by_constituency_table limit lower table with
  | Ok groups => Forall well_summarised groups
  | Raise _ => True
  end
  /\ (forall name data,
        candidates (summarise name data) = g_candidates data
        /\ well_summarised (summarise name data))
  /\ (forall name e t tp n1 p1 q1 n2 p2 q2 n3 p3 q3,
        let c := summarise name
                   {| g_constituency := name; g_electorate := e;
                      g_turnout := t; g_turnout_pct := tp;
                      g_candidates :=
                        [{| c_candidate := n1; c_party := p1;
                            c_votes := Some 1000; c_percentage := q1 |};
                         {| c_candidate := n2; c_party := p2;
                            c_votes := None; c_percentage := q2 |};
                         {| c_candidate := n3; c_party := p3;
                            c_votes := Some 2500; c_percentage := q3 |}] |} in
        total_votes c = 3500
        /\ winner_of c = {| w_candidate := Some n3; w_party := Some p3;
                           w_votes := Some 2500 |})
  /\ (forall name e t tp cs,
        (forall c, In c cs -> c_votes c = None) ->
        winner_of (summarise name
                     {| g_constituency := name; g_electorate := e;
                        g_turnout := t; g_turnout_pct := tp;
                        g_candidates := cs |})
        = {| w_candidate := None; w_party := None; w_votes := None |}).
Proof.
  split; [|split; [|split]].
  - unfold parse_by_constituency_table.
    destruct (find_header_row _ _ _) as [[i header_row]|]; [|constructor].
    unfold bind. destruct (expand_headers _ _ _); [|exact I].
    destruct (run_rows _ _ _ _ _); [|exact I].
    apply Forall_forall. intros c Hc. apply in_map_iff in Hc as [kv [<- _]].
    apply summarise_sound.
  - intros name data. split; [reflexivity | apply summarise_sound].
  - intros. split; reflexivity.
  - intros name e t tp cs H. unfold summarise; simpl.
    replace (known cs) with (@nil candidate); [reflexivity|].
    symmetry. unfold known. induction cs as [|c cs IH]; [reflexivity|].
    simpl. rewrite (H c) by (left; reflexivity). apply IH.
    intros c' Hc'. apply H. right. exact Hc'.
Qed.

(** ** Integers (C5, C10) *)

Lemma decimal_in_bounds (zeros : list N) (c : char) (d : Z) :
  decimal_in zeros c = Some d ->
  0 <= d <= 9 /\ exists z, In z zeros /\ (z <= c <= z + 9)%N.
Proof.
  induction zeros as [|z zs IH]; simpl; [discriminate|].
  unfold in_range. destruct (N.leb z c && N.leb c (z + 9)) eqn:H.
  - apply andb_true_iff in H as [H1 H2].
    apply N.leb_le in H1, H2. intros [= <-]. split; [lia|].
    exists z. split; [left; reflexivity | lia].
  - intros Hd. destruct (IH Hd) as [Hb [z' [Hin Hz]]].
    split; [exact Hb|]. exists z'. split; [right; exact Hin | exact Hz].
Qed.

Lemma digit_value_bounds (c : char) : 0 <= digit_value c <= 9.
Proof.
  unfold digit_value, to_decimal.
  destruct (decimal_in decimal_zeros c) as [d|] eqn:E; [|lia].
  apply decimal_in_bounds in E. tauto.
Qed.

Lemma fold_digits_nonneg (ds : pystr) (acc : Z) :
  0 <= acc -> 0 <= fold_left (fun a c => 10 * a + digit_value c) ds acc.
Proof.
  revert acc; induction ds as [|c ds IH]; intros acc H; cbn [fold_left];
    [exact H|].
  apply IH. pose proof (digit_value_bounds c). lia.
Qed.

Lemma digits_value_nonneg (ds : pystr) : 0 <= digits_value ds.
Proof. apply fold_digits_nonneg. lia. Qed.

Lemma in_range_chars (r : N * N) (c : char) :
  in_range (fst r) (snd r) c = true -> In c (chars_of_range r).
Proof.
  unfold in_range, chars_of_range. intros H.
  apply andb_true_iff in H as [H1 H2]. apply N.leb_le in H1, H2.
  apply in_map_iff. exists (N.to_nat (c - fst r)).
  split; [rewrite N2Nat.id; lia|].
  apply in_seq. lia.
Qed.

Lemma is_space_chars (c : char) :
  is_space c = true -> In c (flat_map chars_of_range space_ranges).
Proof.
  unfold is_space. intros H. apply existsb_exists in H as [r [Hr Hc]].
  apply in_flat_map. exists r. split; [exact Hr | apply in_range_chars, Hc].
Qed.

Lemma decimal_not_space (c : char) :
  is_decimal c = true -> is_space c = false.
Proof.
  intros Hd. destruct (is_space c) eqn:Hs; [|reflexivity].
  apply is_space_chars in Hs.
  assert (H : forallb (fun x => negb (is_decimal x))
                      (flat_map chars_of_range space_ranges) = true)
    by (vm_compute; reflexivity).
  rewrite forallb_forall in H. specialize (H c Hs).
  rewrite Hd in H. discriminate.
Qed.

Lemma int_space_is_space (c : char) :
  is_int_space c = true -> is_space c = true.
Proof.
  unfold is_int_space. intros H.
  apply orb_true_iff in H as [H | H]; [apply orb_true_iff in H as [H | H]|].
  - unfold is_space. simpl. rewrite H. reflexivity.
  - apply char_eqb_eq in H as ->. reflexivity.
  - apply andb_true_iff in H. tauto.
Qed.

(** A decimal digit is neither white space nor a sign, an underscore or
    a dot. *)
Lemma decimal_plain (c : char) :
  is_decimal c = true ->
  is_int_space c = false
  /\ char_eqb c plus_sign = false /\ char_eqb c minus_sign = false
  /\ char_eqb c underscore = false /\ char_eqb c dot = false.
Proof.
  intros Hd. split; [|repeat split].
  - destruct (is_int_space c) eqn:E; [|reflexivity].
    apply int_space_is_space in E. rewrite decimal_not_space in E by exact Hd.
    discriminate.
  - destruct (char_eqb c plus_sign) eqn:E; [|reflexivity].
    apply char_eqb_eq in E as ->. discriminate Hd.
  - destruct (char_eqb c minus_sign) eqn:E; [|reflexivity].
    apply char_eqb_eq in E as ->. discriminate Hd.
  - destruct (char_eqb c underscore) eqn:E; [|reflexivity].
    apply char_eqb_eq in E as ->. discriminate Hd.
  - destruct (char_eqb c dot) eqn:E; [|reflexivity].
    apply char_eqb_eq in E as ->. discriminate Hd.
Qed.

Lemma int_lstrip_decimal (s : pystr) :
  forallb is_decimal s = true -> int_lstrip s = s.
Proof.
  destruct s as [|c s]; [reflexivity|]. simpl. intros H.
  apply andb_true_iff in H as [H _].
  apply decimal_plain in H as [-> _]. reflexivity.
Qed.

Lemma forallb_rev {A} (f : A -> bool) (l : list A) :
  forallb f (rev l) = forallb f l.
Proof.
  induction l as [|x l IH]; [reflexivity|]. simpl.
  rewrite forallb_app, IH. simpl. rewrite andb_true_r. apply andb_comm.
Qed.

Lemma int_strip_decimal (s : pystr) :
  forallb is_decimal s = true -> int_strip s = s.
Proof.
  intros H. unfold int_strip. rewrite (int_lstrip_decimal s H).
  rewrite int_lstrip_decimal by (rewrite forallb_rev; exact H).
  apply rev_involutive.
Qed.

Lemma well_grouped_decimal (s : pystr) :
  forallb is_decimal s = true -> well_grouped true s = true.
Proof.
  induction s as [|c s IH]; [reflexivity|]. simpl. intros H.
  apply andb_true_iff in H as [Hc Hs].
  destruct (decimal_plain c Hc) as [_ [_ [_ [-> _]]]].
  rewrite Hc. apply IH, Hs.
Qed.

Lemma remove_underscore_decimal (s : pystr) :
  forallb is_decimal s = true -> remove_char underscore s = s.
Proof.
  induction s as [|c s IH]; [reflexivity|]. simpl. intros H.
  apply andb_true_iff in H as [Hc Hs].
  destruct (decimal_plain c Hc) as [_ [_ [_ [-> _]]]].
  simpl. rewrite IH by exact Hs. reflexivity.
Qed.

(** [int] on a non-empty string of decimal digits: their value, unless
    the string is longer than the digit limit allows. *)
Lemma py_int_digits (limit : N) (ds : pystr) :
  ds <> [] -> forallb is_decimal ds = true ->
  py_int limit ds =
  if over_digit_limit limit (N.of_nat (length ds)) then Raise ValueError
  else Ok (digits_value ds).
Proof.
  intros Hne H. unfold py_int. rewrite (int_strip_decimal ds H).
  destruct ds as [|c ds]; [congruence|].
  pose proof H as H'. simpl in H'. apply andb_true_iff in H' as [Hc Hs].
  destruct (decimal_plain c Hc) as [_ [-> [-> [Hu _]]]].
  cbn [well_grouped]. rewrite Hu, Hc, (well_grouped_decimal ds Hs).
  cbn [andb]. rewrite (remove_underscore_decimal _ H). reflexivity.
Qed.

Lemma forallb_filter_same {A} (f : A -> bool) (l : list A) :
  forallb f (filter f l) = true.
Proof.
  apply forallb_forall. intros x Hx. apply filter_In in Hx. tauto.
Qed.

Lemma filter_nil_iff {A} (f : A -> bool) (l : list A) :
  filter f l = [] <-> forall x, In x l -> f x = false.
Proof.
  induction l as [|x l IH]; simpl; [tauto|].
  destruct (f x) eqn:E; split.
  - discriminate.
  - intros H. specialize (H x (or_introl eq_refl)). congruence.
  - intros H y [<- | Hy]; [exact E | apply IH; assumption].
  - intros H. apply IH. intros y Hy. apply H. right. exact Hy.
Qed.

Lemma filter_idem {A} (f : A -> bool) (l : list A) :
  filter f (filter f l) = filter f l.
Proof.
  induction l as [|x l IH]; [reflexivity|]. simpl.
  destruct (f x) eqn:E; [simpl; rewrite E, IH|]; auto.
Qed.

(** What [parse_int] returns, case by case. *)
Lemma parse_int_cases (limit : N) (s : pystr) :
  parse_int limit s =
  match filter is_decimal s with
  | [] => Ok None
  | ds => if over_digit_limit limit (N.of_nat (length ds))
          then Raise ValueError
          else Ok (Some (digits_value ds))
  end.
Proof.
  unfold parse_int. destruct (filter is_decimal s) as [|c ds] eqn:E;
    [reflexivity|].
  cbn [nonempty]. rewrite py_int_digits.
  - destruct (over_digit_limit _ _); reflexivity.
  - discriminate.
  - rewrite <- E. apply forallb_filter_same.
Qed.

(** C5: [parse_int] sees only the decimal digits of its argument and
    returns their value ("1,234" gives 1234), failing only on a digit
    string longer than the interpreter's limit on integer conversion,
    never on one of at most 640 digits; an argument without any digit
    (the dash and the empty string among them) gives null, and nothing
    else does: not 0, and no error. *)
Theorem parse_int_strips_non_digits (limit : N) :
  (forall s, parse_int limit s = parse_int limit (filter is_decimal s))
  /\ (forall s,
        parse_int limit s
        = match filter is_decimal s with
          | [] => Ok None
          | ds => if over_digit_limit limit (N.of_nat (length ds))
                  then Raise ValueError
                  else Ok (Some (digits_value ds))
          end)
  /\ (forall s, (0 < length (filter is_decimal s) <= 640)%nat ->
                parse_int limit s
                = Ok (Some (digits_value (filter is_decimal s))))
  /\ (forall s, parse_int limit s = Ok None
                <-> (forall c, In c s -> is_decimal c = false))
  /\ parse_int limit (str "1,234") = Ok (Some 1234)
  /\ parse_int limit [8212%N] = Ok None
  /\ parse_int limit (str "") = Ok None.
Proof.
  split; [|split; [|split; [|split; [|repeat split]]]].
  - intros s. rewrite !parse_int_cases, filter_idem. reflexivity.
  - apply parse_int_cases.
  - intros s [H0 H]. rewrite parse_int_cases.
    destruct (filter is_decimal s) as [|c ds]; [simpl in H0; lia|].
    unfold over_digit_limit.
    replace (N.ltb 640 _) with false; [reflexivity|].
    symmetry. apply N.ltb_ge. lia.
  - intros s. rewrite parse_int_cases, <- filter_nil_iff.
    destruct (filter is_decimal s) as [|c ds].
    + tauto.
    + cbv zeta. destruct (over_digit_limit _ _); split; discriminate.
Qed.

(** C10: [parse_int] never returns a negative number.  A character
    that is not a decimal digit, the minus sign and the dot among
    them, does not change the result wherever it stands: "-1" gives 1
    and "4.5" gives 45. *)
Theorem parse_int_never_negative (limit : N) :
  (forall s, match parse_int limit s with
             | Ok (Some n) => 0 <= n
             | _ => True
             end)
  /\ (forall c s1 s2, is_decimal c = false ->
        parse_int limit (s1 ++ c :: s2) = parse_int limit (s1 ++ s2))
  /\ is_decimal minus_sign = false /\ is_decimal dot = false
  /\ parse_int limit (str "-1") = Ok (Some 1)
  /\ parse_int limit (str "4.5") = Ok (Some 45).
Proof.
  split; [|split; [|repeat split]].
  - intros s. rewrite parse_int_cases.
    destruct (filter is_decimal s) as [|c ds] eqn:E; [exact I|].
    cbv zeta. destruct (over_digit_limit _ _); [exact I|].
    apply digits_value_nonneg.
  - intros c s1 s2 Hc. rewrite !parse_int_cases, !filter_app. simpl.
    rewrite Hc. reflexivity.
Qed.

(** ** Floats (C6) *)

Lemma div_half_even_le (a b k : Z) :
  0 < b -> a <= k * b -> div_half_even a b <= k.
Proof.
  intros Hb Ha. unfold div_half_even.
  pose proof (Z.div_mod a b ltac:(lia)) as Hdm.
  pose proof (Z.mod_pos_bound a b Hb) as Hm.
  assert (Hq : a / b <= k) by (apply Z.div_le_upper_bound; lia).
  destruct (2 * (a mod b) <? b) eqn:H1; [exact Hq|].
  apply Z.ltb_ge in H1.
  assert (a / b < k) by nia.
  destruct (b <? 2 * (a mod b)); [lia|].
  destruct (Z.even (a / b)); lia.
Qed.

Lemma div_half_even_nonneg (a b : Z) :
  0 <= a -> 0 < b -> 0 <= div_half_even a b.
Proof.
  intros Ha Hb. unfold div_half_even.
  assert (0 <= a / b) by (apply Z.div_pos; lia).
  destruct (_ <? _); [lia|]. destruct (_ <? _); [lia|].
  destruct (Z.even _); lia.
Qed.

Lemma scaled_lt_mono (p q k k' : Z) :
  0 <= p -> 0 < q -> k <= k' -> scaled_lt p q k -> scaled_lt p q k'.
Proof.
  unfold scaled_lt. intros Hp Hq Hk.
  destruct (0 <=? k) eqn:E; destruct (0 <=? k') eqn:E';
    try apply Z.leb_le in E; try apply Z.leb_le in E';
    try apply Z.leb_gt in E; try apply Z.leb_gt in E'; try lia; intros H.
  - assert (2 ^ k <= 2 ^ k') by (apply Z.pow_le_mono_r; lia). nia.
  - assert (1 <= 2 ^ (- k)) by (apply (Z.pow_le_mono_r 2 0); lia).
    assert (1 <= 2 ^ k') by (apply (Z.pow_le_mono_r 2 0); lia). nia.
  - assert (2 ^ (- k') <= 2 ^ (- k)) by (apply Z.pow_le_mono_r; lia). nia.
Qed.

(** The exponent that [nearest_double] picks bounds the quotient from
    above. *)
Lemma exponent_upper (p q : Z) :
  0 < p -> 0 < q ->
  let l := Z.log2 p - Z.log2 q in
  scaled_lt p q ((if scaled_le q l p then l else l - 1) + 1).
Proof.
  intros Hp Hq l.
  destruct (Z.log2_spec p Hp) as [Hp1 Hp2].
  destruct (Z.log2_spec q Hq) as [Hq1 Hq2].
  pose proof (Z.log2_nonneg p). pose proof (Z.log2_nonneg q).
  destruct (scaled_le q l p) eqn:E.
  - unfold scaled_lt. destruct (0 <=? l + 1) eqn:E1.
    + apply Z.leb_le in E1.
      replace (Z.succ (Z.log2 p)) with (Z.log2 q + (l + 1)) in Hp2
        by (unfold l; lia).
      rewrite Z.pow_add_r in Hp2 by lia.
      assert (0 < 2 ^ (l + 1)) by (apply Z.pow_pos_nonneg; lia). nia.
    + apply Z.leb_gt in E1.
      assert (Hb : 2 ^ Z.succ (Z.log2 p) * 2 ^ (- (l + 1)) = 2 ^ Z.log2 q).
      { rewrite <- Z.pow_add_r by lia. f_equal. unfold l. lia. }
      assert (0 < 2 ^ (- (l + 1))) by (apply Z.pow_pos_nonneg; lia). nia.
  - replace (l - 1 + 1) with l by lia. unfold scaled_le in E.
    unfold scaled_lt. destruct (0 <=? l).
    + apply Z.leb_gt in E. exact E.
    + apply Z.leb_gt in E. exact E.
Qed.

Lemma exponent_lower (p q : Z) :
  0 < p -> 0 < q ->
  let l := Z.log2 p - Z.log2 q in
  let E := if scaled_le q l p then l else l - 1 in
  0 <= E -> q * 2 ^ E <= p.
Proof.
  intros Hp Hq l E HE. subst E.
  destruct (Z.log2_spec p Hp) as [Hp1 Hp2].
  destruct (Z.log2_spec q Hq) as [Hq1 Hq2].
  pose proof (Z.log2_nonneg p). pose proof (Z.log2_nonneg q).
  destruct (scaled_le q l p) eqn:El.
  - unfold scaled_le in El.
    replace (0 <=? l) with true in El by (symmetry; apply Z.leb_le; lia).
    apply Z.leb_le in El. exact El.
  - replace (Z.log2 p) with (Z.succ (Z.log2 q) + (l - 1)) in Hp1
      by (unfold l; lia).
    rewrite Z.pow_add_r in Hp1 by lia.
    assert (0 < 2 ^ (l - 1)) by (apply Z.pow_pos_nonneg; lia). nia.
Qed.

Lemma nearest_double_bounded (p q : Z) :
  0 <= p -> 0 < q -> bounded (nearest_double p q).
Proof.
  intros Hp Hq. unfold nearest_double.
  destruct (p =? 0) eqn:E0; [exact I|]. apply Z.eqb_neq in E0.
  assert (Hp' : 0 < p) by lia.
  pose proof (exponent_upper p q Hp' Hq) as HU. cbv zeta in HU.
  set (E := if scaled_le q (Z.log2 p - Z.log2 q) p then _ else _) in *.
  set (ex := Z.max (E - 52) (-1074)).
  assert (Hex : scaled_lt p q (ex + 53))
    by (apply (scaled_lt_mono p q (E + 1)); [lia | lia | lia | exact HU]).
  set (n := if 0 <=? ex then _ else _).
  assert (Hn : 0 <= n <= 2 ^ 53).
  { subst n. unfold scaled_lt in Hex. destruct (0 <=? ex) eqn:Eex.
    - apply Z.leb_le in Eex.
      replace (0 <=? ex + 53) with true in Hex
        by (symmetry; apply Z.leb_le; lia).
      rewrite Z.pow_add_r in Hex by lia.
      assert (0 < 2 ^ ex) by (apply Z.pow_pos_nonneg; lia).
      split; [apply div_half_even_nonneg; nia|].
      apply div_half_even_le; nia.
    - apply Z.leb_gt in Eex.
      assert (0 < 2 ^ (- ex)) by (apply Z.pow_pos_nonneg; lia).
      split; [apply div_half_even_nonneg; nia|].
      apply div_half_even_le; [lia|].
      destruct (0 <=? ex + 53) eqn:E53.
      + apply Z.leb_le in E53.
        assert (Hs : 2 ^ (ex + 53) * 2 ^ (- ex) = 2 ^ 53)
          by (rewrite <- Z.pow_add_r by lia; f_equal; lia).
        nia.
      + apply Z.leb_gt in E53.
        assert (Hs : 2 ^ (- (ex + 53)) * 2 ^ 53 = 2 ^ (- ex))
          by (rewrite <- Z.pow_add_r by lia; f_equal; lia).
        nia. }
  clearbody n ex. clear HU Hex E.
  destruct (n =? 2 ^ 53) eqn:En.
  - destruct (971 <? ex + 1) eqn:E1; [exact I|].
    apply Z.ltb_ge in E1. simpl. split; [reflexivity | exact E1].
  - apply Z.eqb_neq in En. destruct (971 <? ex) eqn:E1; [exact I|].
    apply Z.ltb_ge in E1. destruct n as [|m|m]; [exact I | | exact I].
    simpl. split; [lia | exact E1].
Qed.

(** A quotient that does not exceed the largest double is not rounded
    to infinity. *)
Lemma nearest_double_finite (p q : Z) (s : bool) :
  0 <= p -> 0 < q -> p <= q * ((2 ^ 53 - 1) * 2 ^ 971) ->
  nearest_double p q <> S754_infinity s.
Proof.
  intros Hp Hq Hmax. unfold nearest_double.
  destruct (p =? 0) eqn:E0; [discriminate|]. apply Z.eqb_neq in E0.
  assert (Hp' : 0 < p) by lia.
  pose proof (exponent_lower p q Hp' Hq) as HL. cbv zeta in HL.
  set (E := if scaled_le q (Z.log2 p - Z.log2 q) p then _ else _) in *.
  assert (HE : E <= 1023).
  { destruct (Z.le_gt_cases E 1023) as [|HE]; [assumption|]. exfalso.
    specialize (HL ltac:(lia)).
    assert (2 ^ 1024 <= 2 ^ E) by (apply Z.pow_le_mono_r; lia).
    assert ((2 ^ 53 - 1) * 2 ^ 971 < 2 ^ 1024) by (vm_compute; reflexivity).
    nia. }
  set (ex := Z.max (E - 52) (-1074)).
  assert (Hex : -1074 <= ex <= 971) by lia.
  set (n := if 0 <=? ex then _ else _).
  assert (Hn : ex = 971 -> n <= 2 ^ 53 - 1).
  { intros Heq. subst n. rewrite Heq. simpl (0 <=? 971).
    cbv iota. apply div_half_even_le.
    - assert (0 < 2 ^ 971) by (vm_compute; reflexivity). nia.
    - lia. }
  clearbody n ex. clear HL HE E.
  destruct (n =? 2 ^ 53) eqn:En.
  - apply Z.eqb_eq in En.
    assert (ex <> 971) by (intros Heq; specialize (Hn Heq); lia).
    replace (971 <? ex + 1) with false by (symmetry; apply Z.ltb_ge; lia).
    simpl. discriminate.
  - replace (971 <? ex) with false by (symmetry; apply Z.ltb_ge; lia).
    destruct n; discriminate.
Qed.

Lemma py_round2_ok (x : float) : bounded x -> exists r, py_round2 x = Ok r.
Proof.
  destruct x as [s|s| |s m e]; cbn [py_round2 bounded];
    try (eexists; reflexivity).
  intros [Hm He].
  set (h := if 0 <=? e then _ else _).
  assert (Hh : 0 <= h <= 100 * ((2 ^ 53 - 1) * 2 ^ 971)).
  { subst h. assert (0 < 2 ^ 971) by (vm_compute; reflexivity).
    assert (0 < 2 ^ 53 - 1) by (vm_compute; reflexivity).
    destruct (0 <=? e) eqn:E.
    - apply Z.leb_le in E.
      assert (0 < 2 ^ e) by (apply Z.pow_pos_nonneg; lia).
      assert (2 ^ e <= 2 ^ 971) by (apply Z.pow_le_mono_r; lia).
      assert (Z.pos m * 2 ^ e <= (2 ^ 53 - 1) * 2 ^ 971)
        by (apply Z.mul_le_mono_nonneg; lia).
      assert (0 <= Z.pos m * 2 ^ e) by (apply Z.mul_nonneg_nonneg; lia).
      lia.
    - apply Z.leb_gt in E.
      assert (0 < 2 ^ (- e)) by (apply Z.pow_pos_nonneg; lia).
      split; [apply div_half_even_nonneg; lia|].
      assert (div_half_even (100 * Z.pos m) (2 ^ (- e)) <= 100 * Z.pos m)
        by (apply div_half_even_le; nia).
      assert ((2 ^ 53 - 1) * 1 <= (2 ^ 53 - 1) * 2 ^ 971)
        by (apply Z.mul_le_mono_nonneg_l; lia).
      lia. }
  pose proof (nearest_double_finite h 100) as Hf.
  destruct (nearest_double h 100) as [s'|s'| |s' m' e'];
    try (eexists; reflexivity).
  exfalso. apply (Hf s'); [lia | lia | lia | reflexivity].
Qed.

(** Rounding a double that carries no sign gives the double nearest to
    a whole number of hundredths, or the infinity it was given. *)
Lemma py_round2_hundredths (x r : float) :
  match x with
  | S754_zero s | S754_infinity s | S754_finite s _ _ => s = false
  | S754_nan => False
  end ->
  py_round2 x = Ok r ->
  r = S754_infinity false \/ exists h, 0 <= h /\ r = nearest_double h 100.
Proof.
  destruct x as [s|s| |s m e]; cbn [py_round2]; intros Hs H;
    try contradiction; subst s.
  - injection H as <-. right. exists 0. split; [lia | reflexivity].
  - injection H as <-. left. reflexivity.
  - set (h := if 0 <=? e then _ else _) in *.
    assert (Hh : 0 <= h).
    { subst h. destruct (0 <=? e) eqn:E.
      - apply Z.leb_le in E.
        assert (0 < 2 ^ e) by (apply Z.pow_pos_nonneg; lia). nia.
      - apply Z.leb_gt in E. apply div_half_even_nonneg; [lia|].
        apply Z.pow_pos_nonneg; lia. }
    right. exists h. split; [exact Hh|].
    pose proof (nearest_double_bounded h 100 Hh ltac:(lia)) as Hb.
    unfold nearest_double in *.
    destruct (h =? 0); [injection H as <-; reflexivity|].
    repeat match type of H with
           | context [if ?b then _ else _] => destruct b
           end;
      try discriminate;
      repeat match type of H with
             | context [match ?n with Z0 => _ | _ => _ end] => destruct n
             end;
      try discriminate; injection H as <-; reflexivity.
Qed.

Lemma filter_filter_imp {A} (f g : A -> bool) (l : list A) :
  (forall x, f x = true -> g x = true) ->
  filter f (filter g l) = filter f l.
Proof.
  intros H. induction l as [|x l IH]; [reflexivity|]. simpl.
  destruct (g x) eqn:Eg; simpl.
  - destruct (f x); [rewrite IH|]; auto.
  - destruct (f x) eqn:Ef; [|exact IH]. apply H in Ef. congruence.
Qed.

Lemma split_dot_float_chars (l : pystr) :
  forallb float_char l = true ->
  forallb is_decimal (fst (split_dot l)) = true
  /\ filter is_decimal l
     = fst (split_dot l)
       ++ filter is_decimal
            (match snd (split_dot l) with Some f => f | None => [] end)
  /\ count_dots l
     = match snd (split_dot l) with
       | Some f => S (count_dots f)
       | None => 0%nat
       end
  /\ forallb float_char
       (match snd (split_dot l) with Some f => f | None => [] end) = true.
Proof.
  induction l as [|c l IH]; [repeat split; reflexivity|].
  cbn [forallb]. intros H. apply andb_true_iff in H as [Hc Hl].
  cbn [split_dot]. unfold count_dots. cbn [filter].
  destruct (char_eqb c dot) eqn:Ed.
  - apply char_eqb_eq in Ed as ->. cbn [fst snd].
    replace (is_decimal dot) with false by (vm_compute; reflexivity).
    repeat split; try reflexivity; exact Hl.
  - unfold float_char in Hc. rewrite Ed, orb_false_r in Hc. rewrite Hc.
    destruct (IH Hl) as [H1 [H2 [H3 H4]]].
    destruct (split_dot l) as [a r]. cbn [fst snd] in *.
    repeat split.
    + cbn [forallb]. rewrite Hc, H1. reflexivity.
    + rewrite H2. reflexivity.
    + exact H3.
    + exact H4.
Qed.

Lemma decimal_or_dots (f : pystr) :
  forallb float_char f = true ->
  (forallb is_decimal f = true /\ filter is_decimal f = f
   /\ count_dots f = 0%nat)
  \/ (forallb is_decimal f = false /\ (1 <= count_dots f)%nat).
Proof.
  unfold count_dots. induction f as [|c f IH]; [left; repeat split|].
  cbn [forallb filter]. intros H. apply andb_true_iff in H as [Hc Hf].
  unfold float_char in Hc. apply orb_true_iff in Hc as [Hc | Hc].
  - rewrite Hc. destruct (decimal_plain c Hc) as [_ [_ [_ [_ ->]]]].
    destruct (IH Hf) as [[H1 [H2 H3]] | [H1 H2]].
    + left. rewrite H1, H2. repeat split. exact H3.
    + right. rewrite H1. split; [reflexivity | exact H2].
  - rewrite Hc. apply char_eqb_eq in Hc as ->.
    replace (is_decimal dot) with false by (vm_compute; reflexivity).
    right. split; [reflexivity | simpl; lia].
Qed.

(** [float] on a string of digits and dots: a double when the string
    has a digit and at most one dot, and [ValueError] otherwise. *)
Lemma py_float_plain_cases (l : pystr) :
  forallb float_char l = true ->
  (filter is_decimal l <> [] /\ (count_dots l <= 1)%nat
   /\ exists p q, 0 <= p /\ 0 < q
                  /\ py_float_plain l = Ok (nearest_double p q))
  \/ ((filter is_decimal l = [] \/ (2 <= count_dots l)%nat)
      /\ py_float_plain l = Raise ValueError).
Proof.
  intros H. destruct (split_dot_float_chars l H) as [H1 [H2 [H3 H4]]].
  unfold py_float_plain. destruct (split_dot l) as [a r]. cbn [fst snd] in *.
  remember (match r with Some f => f | None => [] end) as f eqn:Ef.
  assert (H2' : filter is_decimal l = a ++ filter is_decimal f)
    by (subst f; exact H2).
  assert (H4' : forallb float_char f = true) by (subst f; exact H4).
  clear H2 H4. rename H2' into H2, H4' into H4.
  rewrite H1. cbn [andb].
  destruct (decimal_or_dots f H4) as [[F1 [F2 F3]] | [F1 F2]].
  - rewrite F1. rewrite F2 in H2. cbn [andb]. rewrite <- H2.
    destruct (filter is_decimal l) as [|c ds] eqn:E.
    + right. split; [left; reflexivity | reflexivity].
    + left. split; [discriminate|]. split.
      * rewrite H3. destruct r; [subst f; lia | lia].
      * eexists. eexists. split; [|split; [|reflexivity]].
        -- apply digits_value_nonneg.
        -- apply Z.pow_pos_nonneg; lia.
  - rewrite F1. cbn [andb]. right. split; [|reflexivity]. right.
    rewrite H3. destruct r as [f'|]; subst f;
      [lia | unfold count_dots in F2; simpl in F2; lia].
Qed.

(** What [parse_float] returns, case by case. *)
Lemma parse_float_cases (s : pystr) :
  ((forall c, In c s -> is_decimal c = false) \/ (2 <= count_dots s)%nat)
  /\ parse_float s = Ok None
  \/ (exists c, In c s /\ is_decimal c = true) /\ (count_dots s <= 1)%nat
     /\ exists x, parse_float s = Ok (Some x)
                  /\ (x = S754_infinity false
                      \/ exists h, 0 <= h /\ x = nearest_double h 100).
Proof.
  unfold parse_float. fold float_char.
  set (cleaned := filter float_char s).
  assert (Hk : forallb float_char cleaned = true)
    by apply forallb_filter_same.
  assert (Hd : filter is_decimal cleaned = filter is_decimal s).
  { apply filter_filter_imp. intros x Hx. unfold float_char.
    rewrite Hx. reflexivity. }
  assert (Hc : count_dots cleaned = count_dots s).
  { unfold count_dots. f_equal. apply filter_filter_imp. intros x Hx.
    unfold float_char. rewrite Hx. apply orb_true_r. }
  destruct (py_float_plain_cases cleaned Hk)
    as [[Hne [Hdots [p [q [Hp [Hq E]]]]]] | [Hbad E]]; rewrite E;
    cbn [bind except_ValueError].
  - right. rewrite Hd in Hne. rewrite Hc in Hdots.
    split; [|split; [exact Hdots|]].
    + destruct (filter is_decimal s) as [|c ds] eqn:Ef; [congruence|].
      exists c. apply filter_In. rewrite Ef. left. reflexivity.
    + pose proof (nearest_double_bounded p q Hp Hq) as Hb.
      destruct (py_round2_ok _ Hb) as [r Hr]. rewrite Hr. cbn.
      exists r. split; [reflexivity|].
      apply (py_round2_hundredths (nearest_double p q)); [|exact Hr].
      unfold nearest_double. clear.
      repeat match goal with
             | |- context [if ?b then _ else _] => destruct b
             end; try reflexivity;
        repeat match goal with
               | |- context [match ?n with Z0 => _ | _ => _ end] => destruct n
               end; reflexivity.
  - left. split; [|reflexivity]. rewrite Hd, Hc in Hbad.
    destruct Hbad as [Hbad | Hbad]; [left | right; exact Hbad].
    apply filter_nil_iff. exact Hbad.
Qed.

Lemma div_half_even_nearest (a b : Z) :
  0 < b -> nearest_integer a b (div_half_even a b).
Proof.
  intros Hb. unfold nearest_integer, div_half_even.
  pose proof (Z.div_mod a b ltac:(lia)) as Hdm.
  pose proof (Z.mod_pos_bound a b Hb) as Hm.
  set (Q := a / b) in *. set (R := a mod b) in *.
  destruct (2 * R <? b) eqn:H1.
  - apply Z.ltb_lt in H1. replace (a - Q * b) with R by lia. split; lia.
  - apply Z.ltb_ge in H1. destruct (b <? 2 * R) eqn:H2.
    + apply Z.ltb_lt in H2. replace (a - (Q + 1) * b) with (R - b) by lia.
      split; lia.
    + apply Z.ltb_ge in H2. destruct (Z.even Q) eqn:Ev.
      * replace (a - Q * b) with R by lia.
        split; [lia | intros _; exact Ev].
      * replace (a - (Q + 1) * b) with (R - b) by lia. split; [lia|].
        intros _. rewrite Z.even_add, Ev. reflexivity.
Qed.

Lemma nearest_integer_unique (a b d d' : Z) :
  0 < b -> nearest_integer a b d -> nearest_integer a b d' -> d = d'.
Proof.
  unfold nearest_integer. intros Hb [H1 H2] [H1' H2'].
  assert (Hd : d = d' \/ d = d' + 1 \/ d' = d + 1) by nia.
  destruct Hd as [Hd | [Hd | Hd]]; [exact Hd | |]; exfalso.
  - assert (T1 : 2 * Z.abs (a - d * b) = b) by nia.
    assert (T2 : 2 * Z.abs (a - d' * b) = b) by nia.
    specialize (H2 T1). specialize (H2' T2). subst d.
    rewrite Z.even_add, H2' in H2. discriminate.
  - assert (T1 : 2 * Z.abs (a - d * b) = b) by nia.
    assert (T2 : 2 * Z.abs (a - d' * b) = b) by nia.
    specialize (H2 T1). specialize (H2' T2). subst d'.
    rewrite Z.even_add, H2 in H2'. discriminate.
Qed.

Lemma nearest_integer_scale (a b d c : Z) :
  0 < c -> (nearest_integer a b d <-> nearest_integer (a * c) (b * c) d).
Proof.
  intros Hc. unfold nearest_integer.
  replace (a * c - d * (b * c)) with ((a - d * b) * c) by ring.
  rewrite Z.abs_mul, (Z.abs_eq c) by lia.
  set (X := Z.abs (a - d * b)).
  replace (2 * (X * c)) with (2 * X * c) by ring.
  split; intros [H1 H2]; split.
  - apply Z.mul_le_mono_pos_r; assumption.
  - intros H. apply H2. apply Z.mul_cancel_r in H; lia.
  - apply Z.mul_le_mono_pos_r in H1; assumption.
  - intros H. apply H2. rewrite H. reflexivity.
Qed.

Lemma nearest_scaled_common (p q e d K : Z) :
  0 <= K -> 0 <= e + K ->
  (nearest_scaled p q e d
   <-> nearest_integer (p * 2 ^ K) (q * 2 ^ (e + K)) d).
Proof.
  intros HK He. unfold nearest_scaled. destruct (0 <=? e) eqn:E.
  - apply Z.leb_le in E.
    replace (q * 2 ^ (e + K)) with (q * 2 ^ e * 2 ^ K)
      by (rewrite Z.pow_add_r by lia; ring).
    apply nearest_integer_scale. apply Z.pow_pos_nonneg; lia.
  - apply Z.leb_gt in E.
    replace (p * 2 ^ K) with (p * 2 ^ (- e) * 2 ^ (e + K))
      by (rewrite <- Z.mul_assoc, <- Z.pow_add_r by lia;
          f_equal; f_equal; lia).
    apply nearest_integer_scale. apply Z.pow_pos_nonneg; lia.
Qed.

Lemma at_least_common (p q k e K : Z) :
  0 <= K -> 0 <= e + K ->
  (at_least p q k e <-> k * q * 2 ^ (e + K) <= p * 2 ^ K).
Proof.
  intros HK He. unfold at_least. destruct (0 <=? e) eqn:E.
  - apply Z.leb_le in E. rewrite Z.pow_add_r by lia.
    rewrite Z.mul_assoc.
    apply Z.mul_le_mono_pos_r. apply Z.pow_pos_nonneg; lia.
  - apply Z.leb_gt in E.
    replace (p * 2 ^ K) with (p * 2 ^ (- e) * 2 ^ (e + K))
      by (rewrite <- Z.mul_assoc, <- Z.pow_add_r by lia;
          f_equal; f_equal; lia).
    apply Z.mul_le_mono_pos_r. apply Z.pow_pos_nonneg; lia.
Qed.

Lemma scaled_lt_common (p q k K : Z) :
  0 <= K -> 0 <= k + K ->
  (scaled_lt p q k <-> p * 2 ^ K < q * 2 ^ (k + K)).
Proof.
  intros HK He. unfold scaled_lt. destruct (0 <=? k) eqn:E.
  - apply Z.leb_le in E. rewrite Z.pow_add_r by lia.
    rewrite Z.mul_assoc.
    apply Z.mul_lt_mono_pos_r. apply Z.pow_pos_nonneg; lia.
  - apply Z.leb_gt in E.
    replace (p * 2 ^ K) with (p * 2 ^ (- k) * 2 ^ (k + K))
      by (rewrite <- Z.mul_assoc, <- Z.pow_add_r by lia;
          f_equal; f_equal; lia).
    apply Z.mul_lt_mono_pos_r. apply Z.pow_pos_nonneg; lia.
Qed.

Lemma scaled_le_common (p q l K : Z) :
  0 <= K -> 0 <= l + K ->
  (scaled_le q l p = true <-> q * 2 ^ (l + K) <= p * 2 ^ K).
Proof.
  intros HK He. unfold scaled_le. destruct (0 <=? l) eqn:E.
  - apply Z.leb_le in E. rewrite Z.leb_le, Z.pow_add_r by lia.
    rewrite Z.mul_assoc.
    apply Z.mul_le_mono_pos_r. apply Z.pow_pos_nonneg; lia.
  - apply Z.leb_gt in E. rewrite Z.leb_le.
    replace (p * 2 ^ K) with (p * 2 ^ (- l) * 2 ^ (l + K))
      by (rewrite <- Z.mul_assoc, <- Z.pow_add_r by lia;
          f_equal; f_equal; lia).
    apply Z.mul_le_mono_pos_r. apply Z.pow_pos_nonneg; lia.
Qed.

(** The exponent that [nearest_double] picks bounds the quotient from
    below. *)
Lemma exponent_below (p q : Z) :
  0 < p -> 0 < q ->
  let l := Z.log2 p - Z.log2 q in
  scaled_le q (if scaled_le q l p then l else l - 1) p = true.
Proof.
  intros Hp Hq l.
  destruct (scaled_le q l p) eqn:El; [exact El|].
  destruct (Z.log2_spec p Hp) as [Hp1 Hp2].
  destruct (Z.log2_spec q Hq) as [Hq1 Hq2].
  pose proof (Z.log2_nonneg p). pose proof (Z.log2_nonneg q).
  unfold scaled_le. destruct (0 <=? l - 1) eqn:E.
  - apply Z.leb_le in E. apply Z.leb_le.
    replace (Z.log2 p) with (Z.succ (Z.log2 q) + (l - 1)) in Hp1
      by (unfold l; lia).
    rewrite Z.pow_add_r in Hp1 by lia.
    assert (0 < 2 ^ (l - 1)) by (apply Z.pow_pos_nonneg; lia). nia.
  - apply Z.leb_gt in E. apply Z.leb_le.
    assert (Hb : 2 ^ Z.log2 p * 2 ^ (- (l - 1)) = 2 ^ Z.succ (Z.log2 q)).
    { rewrite <- Z.pow_add_r by lia. f_equal. unfold l. lia. }
    assert (0 < 2 ^ (- (l - 1))) by (apply Z.pow_pos_nonneg; lia). nia.
Qed.

(** [nearest_double] rounds as IEEE 754 does. *)
Lemma nearest_double_rounds (p q : Z) :
  0 <= p -> 0 < q -> rounds_to_double p q (nearest_double p q).
Proof.
  intros Hp Hq. unfold nearest_double.
  destruct (p =? 0) eqn:E0.
  { apply Z.eqb_eq in E0. subst p. cbn [rounds_to_double].
    unfold nearest_scaled. change (0 <=? -1074) with false. cbv iota.
    unfold nearest_integer. rewrite Z.mul_0_l. split; lia. }
  apply Z.eqb_neq in E0. assert (Hp' : 0 < p) by lia.
  pose proof (exponent_upper p q Hp' Hq) as HU.
  pose proof (exponent_below p q Hp' Hq) as HL. cbv zeta in HU, HL.
  set (E := if scaled_le q (Z.log2 p - Z.log2 q) p then _ else _) in *.
  set (ex := Z.max (E - 52) (-1074)).
  assert (Hex : scaled_lt p q (ex + 53))
    by (apply (scaled_lt_mono p q (E + 1)); [lia | lia | lia | exact HU]).
  assert (Hexv : -1074 <= ex /\ (ex = -1074 \/ ex = E - 52)) by lia.
  set (n := if 0 <=? ex then _ else _).
  assert (HN0 : nearest_scaled p q ex n).
  { unfold nearest_scaled. subst n.
    destruct (0 <=? ex) eqn:Eex; apply div_half_even_nearest; [|exact Hq].
    apply Z.mul_pos_pos; [exact Hq|]. apply Z.pow_pos_nonneg; [lia|].
    apply Z.leb_le. exact Eex. }
  clearbody n ex. clear HU.
  set (K := 1076).
  assert (HK0 : 0 <= K) by (subst K; lia).
  assert (HK1 : 0 <= ex - 2 + K) by (subst K; lia).
  clearbody K.
  set (W := 2 ^ (ex - 2 + K)).
  assert (HW : 0 < W) by (apply Z.pow_pos_nonneg; lia).
  assert (W1 : 2 ^ (ex - 1 + K) = 2 * W).
  { replace (ex - 1 + K) with (ex - 2 + K + 1) by lia.
    rewrite Z.pow_add_r by lia. fold W. change (2 ^ 1) with 2. ring. }
  assert (W2 : 2 ^ (ex + K) = 4 * W).
  { replace (ex + K) with (ex - 2 + K + 2) by lia.
    rewrite Z.pow_add_r by lia. fold W. change (2 ^ 2) with 4. ring. }
  assert (W3 : 2 ^ (ex + 1 + K) = 8 * W).
  { replace (ex + 1 + K) with (ex - 2 + K + 3) by lia.
    rewrite Z.pow_add_r by lia. fold W. change (2 ^ 3) with 8. ring. }
  set (M := 2 ^ 52).
  assert (HM : 0 < M) by reflexivity.
  assert (M53 : 2 ^ 53 = 2 * M) by reflexivity.
  assert (M54 : 2 ^ 54 = 4 * M) by reflexivity.
  assert (W53 : 2 ^ (ex + 53 + K) = 8 * M * W).
  { replace (ex + 53 + K) with (ex - 2 + K + 55) by lia.
    rewrite Z.pow_add_r by lia. fold W.
    replace (2 ^ 55) with (8 * M) by reflexivity. ring. }
  set (P := p * 2 ^ K).
  set (C := q * W).
  assert (HC : 0 < C) by (apply Z.mul_pos_pos; assumption).
  pose proof HN0 as HN.
  apply (nearest_scaled_common p q ex n K) in HN; [|lia|lia].
  rewrite W2 in HN. fold P in HN.
  replace (q * (4 * W)) with (4 * C) in HN by (unfold C; ring).
  apply (scaled_lt_common p q (ex + 53) K) in Hex; [|lia|lia].
  rewrite W53 in Hex. fold P in Hex.
  replace (q * (8 * M * W)) with (8 * (M * C)) in Hex by (unfold C; ring).
  assert (HLn : ex = E - 52 -> 4 * (M * C) <= P).
  { intros HE. apply (scaled_le_common p q E K) in HL; [|lia|lia].
    replace (E + K) with (ex - 2 + K + 54) in HL by lia.
    rewrite Z.pow_add_r in HL by lia. fold W in HL. fold P in HL.
    rewrite M54 in HL. unfold C. lia. }
  clear HL.
  destruct HN as [HN1 HN2].
  assert (Hn : 0 <= n <= 2 * M) by nia.
  assert (Hnorm : ex = E - 52 -> M <= n).
  { intros HE. specialize (HLn HE). nia. }
  destruct (n =? 2 ^ 53) eqn:En.
  - apply Z.eqb_eq in En. rewrite M53 in En.
    assert (Hlow : (4 * M - 1) * (2 * C) <= P) by nia.
    destruct (971 <? ex + 1) eqn:E1.
    + apply Z.ltb_lt in E1. cbn [rounds_to_double].
      apply (at_least_common p q _ 970 K); [lia | lia|]. fold P.
      assert (Hpow : 2 ^ (970 + K) <= 2 ^ (ex - 1 + K))
        by (apply Z.pow_le_mono_r; lia).
      rewrite W1 in Hpow. rewrite M54.
      assert (0 < 2 ^ (970 + K)) by (apply Z.pow_pos_nonneg; lia).
      unfold C in Hlow. nia.
    + apply Z.ltb_ge in E1.
      change (2 ^ 52) with (Z.pos (2 ^ 52)%positive). cbv iota.
      cbn [rounds_to_double].
      change (Z.pos (2 ^ 52)%positive) with M.
      split; [rewrite M53; lia|]. split; [lia|]. split; [left; lia|].
      split.
      * apply (nearest_scaled_common p q (ex + 1) M K); [lia | lia|].
        rewrite W3. fold P.
        replace (q * (8 * W)) with (8 * C) by (unfold C; ring).
        unfold nearest_integer. split; nia.
      * intros _ _. apply (at_least_common p q _ (ex + 1 - 2) K); [lia|lia|].
        replace (ex + 1 - 2 + K) with (ex - 1 + K) by lia.
        rewrite W1, M54. fold P. unfold C in Hlow. nia.
  - apply Z.eqb_neq in En. rewrite M53 in En.
    destruct (971 <? ex) eqn:E1.
    + apply Z.ltb_lt in E1. cbn [rounds_to_double].
      assert (HE : ex = E - 52) by lia. specialize (HLn HE).
      apply (at_least_common p q _ 970 K); [lia | lia|]. fold P.
      assert (Hpow : 2 ^ (970 + K) <= 2 ^ (ex - 2 + K))
        by (apply Z.pow_le_mono_r; lia).
      fold W in Hpow. rewrite M54.
      assert (0 < 2 ^ (970 + K)) by (apply Z.pow_pos_nonneg; lia).
      unfold C in HLn. nia.
    + apply Z.ltb_ge in E1. destruct n as [|m|m]; [| |lia].
      * cbn [rounds_to_double].
        assert (HE : ex = -1074).
        { destruct Hexv as [_ [HE | HE]]; [exact HE|].
          specialize (Hnorm HE). lia. }
        rewrite <- HE. exact HN0.
      * cbn [rounds_to_double].
        split; [rewrite M53; lia|]. split; [lia|]. split.
        { destruct Hexv as [_ [HE | HE]]; [right; exact HE|].
          left. apply (Hnorm HE). }
        split; [exact HN0|].
        intros _ Hgt. assert (HE : ex = E - 52) by lia. specialize (HLn HE).
        apply (at_least_common p q _ (ex - 2) K); [lia|lia|].
        fold W. fold P. rewrite M54. unfold C in HLn. nia.
Qed.

(** What [rounds_to_double] says of a finite double, on a common scale
    [2^K]: [t] stands for [q * 2^(e - 2 + K)]. *)
Lemma rounds_finite_common (p q K : Z) (m : positive) (e : Z) :
  1076 <= K ->
  rounds_to_double p q (S754_finite false m e) ->
  let M := 2 ^ 52 in
  let P := p * 2 ^ K in
  let t := q * 2 ^ (e - 2 + K) in
  Z.pos m < 2 * M /\ -1074 <= e <= 971
  /\ (M <= Z.pos m \/ e = -1074)
  /\ 2 * Z.abs (P - 4 * (Z.pos m * t)) <= 4 * t
  /\ (2 * Z.abs (P - 4 * (Z.pos m * t)) = 4 * t -> Z.even (Z.pos m) = true)
  /\ (Z.pos m = M -> -1074 < e -> (4 * M - 1) * t <= P).
Proof.
  intros HK H M P t. cbn [rounds_to_double] in H.
  destruct H as [H1 [H2 [H3 [H4 H5]]]].
  assert (W2 : 2 ^ (e + K) = 4 * 2 ^ (e - 2 + K)).
  { replace (e + K) with (e - 2 + K + 2) by lia.
    rewrite Z.pow_add_r by lia. change (2 ^ 2) with 4. ring. }
  apply (nearest_scaled_common p q e _ K) in H4; [|lia|lia].
  rewrite W2 in H4. fold P in H4. destruct H4 as [H4 H4'].
  replace (Z.pos m * (q * (4 * 2 ^ (e - 2 + K))))
    with (4 * (Z.pos m * t)) in H4, H4' by (unfold t; ring).
  replace (q * (4 * 2 ^ (e - 2 + K))) with (4 * t) in H4, H4'
    by (unfold t; ring).
  split; [exact H1|]. split; [exact H2|]. split; [exact H3|].
  split; [exact H4|]. split; [exact H4'|].
  intros Hm He. specialize (H5 Hm He).
  apply (at_least_common p q _ (e - 2) K) in H5; [|lia|lia].
  fold P in H5. replace (2 ^ 54 - 1) with (4 * M - 1) in H5 by reflexivity.
  unfold t. lia.
Qed.

Lemma rounds_zero_common (p q K : Z) :
  1076 <= K -> 0 <= p ->
  rounds_to_double p q (S754_zero false) ->
  p * 2 ^ K <= 2 * (q * 2 ^ (-1074 - 2 + K)).
Proof.
  intros HK Hp. cbn [rounds_to_double]. intros H.
  apply (nearest_scaled_common p q (-1074) _ K) in H; [|lia|lia].
  destruct H as [H _]. rewrite Z.mul_0_l, Z.sub_0_r in H.
  assert (0 <= p * 2 ^ K)
    by (apply Z.mul_nonneg_nonneg; [lia | apply Z.pow_nonneg; lia]).
  rewrite Z.abs_eq in H by assumption.
  replace (-1074 + K) with (-1074 - 2 + K + 2) in H by lia.
  rewrite Z.pow_add_r in H by lia. change (2 ^ 2) with 4 in H. lia.
Qed.

Lemma rounds_infinity_common (p q K : Z) :
  1076 <= K ->
  rounds_to_double p q (S754_infinity false) ->
  (4 * 2 ^ 52 - 1) * (2 * (q * 2 ^ (971 - 2 + K))) <= p * 2 ^ K.
Proof.
  intros HK. cbn [rounds_to_double]. intros H.
  apply (at_least_common p q _ 970 K) in H; [|lia|lia].
  replace (970 + K) with (971 - 2 + K + 1) in H by lia.
  rewrite Z.pow_add_r in H by lia. change (2 ^ 1) with 2 in H.
  replace (2 ^ 54 - 1) with (4 * 2 ^ 52 - 1) in H by reflexivity. lia.
Qed.

Lemma unit_mono (q K e e' : Z) :
  0 < q -> 0 <= e - 2 + K -> e <= e' ->
  0 < q * 2 ^ (e - 2 + K) <= q * 2 ^ (e' - 2 + K).
Proof.
  intros Hq He Hle.
  assert (0 < 2 ^ (e - 2 + K)) by (apply Z.pow_pos_nonneg; lia).
  assert (2 ^ (e - 2 + K) <= 2 ^ (e' - 2 + K))
    by (apply Z.pow_le_mono_r; lia).
  nia.
Qed.

Lemma unit_double (q K e e' : Z) :
  0 < q -> 0 <= e - 2 + K -> e < e' ->
  2 * (q * 2 ^ (e - 2 + K)) <= q * 2 ^ (e' - 2 + K).
Proof.
  intros Hq He Hlt.
  assert (H2 : 2 * 2 ^ (e - 2 + K) = 2 ^ (e + 1 - 2 + K)).
  { replace (e + 1 - 2 + K) with (e - 2 + K + 1) by lia.
    rewrite (Z.pow_add_r 2 (e - 2 + K) 1) by lia. change (2 ^ 1) with 2.
    ring. }
  pose proof (unit_mono q K (e + 1) e' Hq ltac:(lia) ltac:(lia)) as [_ H].
  rewrite <- H2 in H. lia.
Qed.

(** Two finite doubles of different exponents are not both what a
    fraction rounds to. *)
Lemma rounds_finite_exponents (p q : Z) (m m' : positive) (e e' : Z) :
  0 <= p -> 0 < q ->
  rounds_to_double p q (S754_finite false m e) ->
  rounds_to_double p q (S754_finite false m' e') ->
  e < e' -> False.
Proof.
  intros Hp Hq H H' Hlt.
  set (K := 1076). assert (HK : 1076 <= K) by (subst K; lia). clearbody K.
  pose proof (rounds_finite_common p q K m e HK H) as F.
  pose proof (rounds_finite_common p q K m' e' HK H') as F'.
  cbv zeta in F, F'.
  destruct F as [A1 [A2 [_ [A4 [A5 _]]]]].
  destruct F' as [B1 [B2 [B3 [B4 [_ B6]]]]].
  pose proof (unit_double q K e e' Hq ltac:(lia) Hlt) as HD.
  pose proof (unit_mono q K e e Hq ltac:(lia) ltac:(lia)) as [Ht _].
  set (t := q * 2 ^ (e - 2 + K)) in *.
  set (t' := q * 2 ^ (e' - 2 + K)) in *.
  set (P := p * 2 ^ K) in *.
  set (M := 2 ^ 52) in *.
  assert (HM : 0 < M) by reflexivity.
  assert (HmM : M <= Z.pos m') by (destruct B3; lia).
  assert (Hup : P <= (8 * M - 2) * t) by nia.
  assert (Hm' : Z.pos m' = M) by nia.
  specialize (B6 Hm' ltac:(lia)).
  assert (HP : P = (8 * M - 2) * t) by nia.
  assert (Hm : Z.pos m = 2 * M - 1) by nia.
  assert (Hodd : Z.even (Z.pos m) = false) by (rewrite Hm; reflexivity).
  rewrite A5 in Hodd; [discriminate|]. rewrite HP, Hm.
  replace ((8 * M - 2) * t - 4 * ((2 * M - 1) * t)) with (2 * t) by ring.
  rewrite Z.abs_eq by lia. ring.
Qed.

(** [rounds_to_double] names one double. *)
Lemma rounds_to_double_unique (p q : Z) (x y : float) :
  0 <= p -> 0 < q ->
  rounds_to_double p q x -> rounds_to_double p q y -> x = y.
Proof.
  intros Hp Hq Hx Hy.
  set (K := 1076). assert (HK : 1076 <= K) by (subst K; lia). clearbody K.
  assert (HM : 0 < 2 ^ 52) by reflexivity.
  assert (HP : 0 <= p * 2 ^ K)
    by (apply Z.mul_nonneg_nonneg; [lia | apply Z.pow_nonneg; lia]).
  assert (Hzf : forall m e, rounds_to_double p q (S754_zero false) ->
                            rounds_to_double p q (S754_finite false m e) ->
                            False).
  { intros m e Hz Hf.
    pose proof (rounds_zero_common p q K HK Hp Hz) as Z1.
    pose proof (rounds_finite_common p q K m e HK Hf) as F. cbv zeta in F.
    destruct F as [A1 [A2 [A3 [A4 [A5 _]]]]].
    destruct (Z.eq_dec e (-1074)) as [-> | Hne].
    - set (t := q * 2 ^ (-1074 - 2 + K)) in *.
      assert (Ht : 0 < t)
        by (apply Z.mul_pos_pos; [lia | apply Z.pow_pos_nonneg; lia]).
      set (P := p * 2 ^ K) in *.
      assert (Hm : Z.pos m = 1) by nia.
      assert (HPt : P = 2 * t) by nia.
      assert (Hodd : Z.even (Z.pos m) = false) by (rewrite Hm; reflexivity).
      rewrite A5 in Hodd; [discriminate|]. rewrite HPt, Hm.
      replace (2 * t - 4 * (1 * t)) with (- (2 * t)) by ring.
      rewrite Z.abs_opp, Z.abs_eq by lia. ring.
    - pose proof (unit_double q K (-1074) e Hq ltac:(lia) ltac:(lia)) as HD.
      pose proof (unit_mono q K (-1074) e Hq ltac:(lia) ltac:(lia))
        as [Ht _].
      set (t0 := q * 2 ^ (-1074 - 2 + K)) in *.
      set (t := q * 2 ^ (e - 2 + K)) in *.
      set (P := p * 2 ^ K) in *.
      assert (HmM : 2 ^ 52 <= Z.pos m) by (destruct A3; lia).
      nia. }
  assert (Hzi : rounds_to_double p q (S754_zero false) ->
                rounds_to_double p q (S754_infinity false) -> False).
  { intros Hz Hi.
    pose proof (rounds_zero_common p q K HK Hp Hz) as Z1.
    pose proof (rounds_infinity_common p q K HK Hi) as I1.
    pose proof (unit_mono q K (-1074) 971 Hq ltac:(lia) ltac:(lia))
      as [Ht Hle].
    set (t0 := q * 2 ^ (-1074 - 2 + K)) in *.
    set (t := q * 2 ^ (971 - 2 + K)) in *.
    set (P := p * 2 ^ K) in *. nia. }
  assert (Hfi : forall m e, rounds_to_double p q (S754_finite false m e) ->
                            rounds_to_double p q (S754_infinity false) ->
                            False).
  { intros m e Hf Hi.
    pose proof (rounds_infinity_common p q K HK Hi) as I1.
    pose proof (rounds_finite_common p q K m e HK Hf) as F. cbv zeta in F.
    destruct F as [A1 [A2 [_ [A4 [A5 _]]]]].
    pose proof (unit_mono q K e 971 Hq ltac:(lia) ltac:(lia)) as [Ht Hle].
    set (t := q * 2 ^ (e - 2 + K)) in *.
    set (t9 := q * 2 ^ (971 - 2 + K)) in *.
    set (P := p * 2 ^ K) in *.
    set (M := 2 ^ 52) in *.
    assert (Hup : P <= (8 * M - 2) * t) by nia.
    assert (Hm : Z.pos m = 2 * M - 1) by nia.
    assert (HPt : P = (8 * M - 2) * t) by nia.
    assert (Hodd : Z.even (Z.pos m) = false) by (rewrite Hm; reflexivity).
    rewrite A5 in Hodd; [discriminate|]. rewrite HPt, Hm.
    replace ((8 * M - 2) * t - 4 * ((2 * M - 1) * t)) with (2 * t) by ring.
    rewrite Z.abs_eq by lia. ring. }
  destruct x as [[|]|[|]| |[|] m e]; try contradiction;
    destruct y as [[|]|[|]| |[|] m' e']; try contradiction;
    try reflexivity; try (exfalso; eauto; fail).
  destruct (Z.lt_trichotomy e e') as [Hlt | [-> | Hgt]].
  - destruct (rounds_finite_exponents p q m m' e e' Hp Hq Hx Hy Hlt).
  - f_equal. cbn [rounds_to_double] in Hx, Hy.
    destruct Hx as [_ [He [_ [Hx _]]]]. destruct Hy as [_ [_ [_ [Hy _]]]].
    apply (nearest_scaled_common p q e' _ K) in Hx; [|lia|lia].
    apply (nearest_scaled_common p q e' _ K) in Hy; [|lia|lia].
    assert (0 < q * 2 ^ (e' + K))
      by (apply Z.mul_pos_pos; [lia | apply Z.pow_pos_nonneg; lia]).
    pose proof (nearest_integer_unique _ _ _ _ H Hx Hy) as Heq.
    injection Heq as ->. reflexivity.
  - destruct (rounds_finite_exponents p q m' m e' e Hp Hq Hy Hx Hgt).
Qed.

Lemma filter_forallb {A} (f : A -> bool) (l : list A) :
  forallb f l = true -> filter f l = l.
Proof.
  induction l as [|a l IH]; [reflexivity|]. cbn [forallb filter].
  intros H. apply andb_true_iff in H as [H1 H2]. rewrite H1, IH by exact H2.
  reflexivity.
Qed.

Lemma after_dot_split (l : pystr) :
  match snd (split_dot l) with Some f => f | None => [] end = after_dot l.
Proof.
  induction l as [|c l IH]; [reflexivity|]. cbn [split_dot after_dot].
  destruct (char_eqb c dot); [reflexivity|].
  destruct (split_dot l) as [a b]. exact IH.
Qed.

Lemma after_dot_filter (s : pystr) :
  after_dot (filter float_char s) = filter float_char (after_dot s).
Proof.
  induction s as [|c s IH]; [reflexivity|]. cbn [filter after_dot].
  destruct (char_eqb c dot) eqn:Ed.
  - unfold float_char at 1. rewrite Ed, orb_true_r. cbn [after_dot].
    rewrite Ed. reflexivity.
  - destruct (float_char c); [cbn [after_dot]; rewrite Ed|]; exact IH.
Qed.

(** The double [float] returns for a string of digits and dots. *)
Lemma py_float_plain_value (l : pystr) (x : float) :
  forallb float_char l = true ->
  py_float_plain l = Ok x ->
  x = nearest_double (digits_value (filter is_decimal l))
        (10 ^ Z.of_nat (length (filter is_decimal (after_dot l)))).
Proof.
  intros H. destruct (split_dot_float_chars l H) as [H1 [H2 [H3 H4]]].
  rewrite <- after_dot_split.
  unfold py_float_plain. destruct (split_dot l) as [a r]. cbn [fst snd] in *.
  set (f := match r with Some f => f | None => [] end) in *.
  rewrite H1. cbn [andb].
  destruct (forallb is_decimal f) eqn:F; cbn [andb]; [|discriminate].
  destruct (nonempty (a ++ f)); [|discriminate].
  intros [= <-]. rewrite H2.
  pose proof (filter_forallb is_decimal f F) as Hf. subst f.
  f_equal; [f_equal; f_equal | f_equal; f_equal; f_equal];
    symmetry; exact Hf.
Qed.

Lemma nearest_integer_nonneg (a b d : Z) :
  0 <= a -> 0 < b -> nearest_integer a b d -> 0 <= d.
Proof. unfold nearest_integer. intros Ha Hb [H _]. nia. Qed.

Lemma nearest_scaled_hundredths (m : positive) (e h h' : Z) :
  nearest_scaled (100 * Z.pos m) 1 (- e) h ->
  (0 <= h /\ (nearest_scaled (100 * Z.pos m) 1 (- e) h' -> h = h')).
Proof.
  unfold nearest_scaled. destruct (0 <=? - e) eqn:E.
  - apply Z.leb_le in E.
    assert (0 < 1 * 2 ^ (- e)) by (apply Z.mul_pos_pos;
                                   [lia | apply Z.pow_pos_nonneg; lia]).
    intros H1. split.
    + apply (nearest_integer_nonneg (100 * Z.pos m) (1 * 2 ^ (- e)) h);
        [lia | exact H | exact H1].
    + intros H2. apply (nearest_integer_unique _ _ _ _ H H1 H2).
  - apply Z.leb_gt in E.
    assert (0 <= 100 * Z.pos m * 2 ^ (- - e))
      by (apply Z.mul_nonneg_nonneg; [lia | apply Z.pow_nonneg; lia]).
    intros H1. split.
    + apply (nearest_integer_nonneg (100 * Z.pos m * 2 ^ (- - e)) 1 h);
        [exact H | lia | exact H1].
    + intros H2.
      apply (nearest_integer_unique (100 * Z.pos m * 2 ^ (- - e)) 1 h h');
        [lia | exact H1 | exact H2].
Qed.

(** [round(x, 2)] rounds to hundredths. *)
Lemma py_round2_rounds (p q : Z) (x r : float) :
  rounds_to_double p q x -> py_round2 x = Ok r -> rounded_to_hundredths x r.
Proof.
  destruct x as [[|]|[|]| |[|] m e]; try contradiction; intros _;
    cbn [py_round2 rounded_to_hundredths]; try (intros [= <-]; reflexivity).
  set (h := if 0 <=? e then _ else _). intros H.
  assert (Hh : nearest_scaled (100 * Z.pos m) 1 (- e) h).
  { unfold nearest_scaled. subst h.
    destruct (0 <=? e) eqn:E; destruct (0 <=? - e) eqn:E'.
    - apply Z.leb_le in E. apply Z.leb_le in E'.
      replace e with 0 by lia. change (- 0) with 0. change (2 ^ 0) with 1.
      unfold nearest_integer.
      replace (100 * Z.pos m - 100 * Z.pos m * 1 * (1 * 1)) with 0 by ring.
      split; [lia | intros; lia].
    - rewrite Z.opp_involutive. unfold nearest_integer.
      replace (100 * Z.pos m * 2 ^ e - 100 * Z.pos m * 2 ^ e * 1) with 0
        by ring.
      split; [lia | intros; lia].
    - rewrite Z.mul_1_l. apply div_half_even_nearest.
      apply Z.pow_pos_nonneg; [lia | apply Z.leb_le; exact E'].
    - apply Z.leb_gt in E. apply Z.leb_gt in E'. lia. }
  exists h. split; [exact Hh|].
  destruct (nearest_scaled_hundredths m e h h Hh) as [H0 _].
  pose proof (nearest_double_rounds h 100 H0 ltac:(lia)) as R.
  destruct (nearest_double h 100) as [[|]|[|]| |[|] m' e'];
    try contradiction; try discriminate; injection H as <-; exact R.
Qed.

Lemma rounded_to_hundredths_unique (x r r' : float) :
  rounded_to_hundredths x r -> rounded_to_hundredths x r' -> r = r'.
Proof.
  destruct x as [[|]|[|]| |[|] m e]; cbn [rounded_to_hundredths];
    try contradiction; try congruence.
  intros [h [H1 H2]] [h' [H1' H2']].
  destruct (nearest_scaled_hundredths m e h h' H1) as [H0 Hu].
  specialize (Hu H1'). subst h'.
  apply (rounds_to_double_unique h 100); try assumption. lia.
Qed.

(** The float [parse_float] returns, from the digits it keeps. *)
Lemma parse_float_value (s : pystr) (r : float) :
  parse_float s = Ok (Some r) ->
  exists x, rounds_to_double (kept_numerator s) (kept_denominator s) x
            /\ rounded_to_hundredths x r.
Proof.
  unfold parse_float. fold float_char.
  set (cleaned := filter float_char s).
  assert (Hk : forallb float_char cleaned = true)
    by apply forallb_filter_same.
  assert (Hd : filter is_decimal cleaned = filter is_decimal s).
  { apply filter_filter_imp. intros x Hx. unfold float_char.
    rewrite Hx. reflexivity. }
  assert (Ha : filter is_decimal (after_dot cleaned)
               = filter is_decimal (after_dot s)).
  { unfold cleaned. rewrite after_dot_filter. apply filter_filter_imp.
    intros x Hx. unfold float_char. rewrite Hx. reflexivity. }
  destruct (py_float_plain cleaned) as [x|e] eqn:E; cbn [bind].
  - apply (py_float_plain_value cleaned x Hk) in E. rewrite Hd, Ha in E.
    fold (kept_numerator s) in E. fold (kept_denominator s) in E.
    assert (R : rounds_to_double (kept_numerator s) (kept_denominator s) x).
    { rewrite E. apply nearest_double_rounds.
      - apply digits_value_nonneg.
      - apply Z.pow_pos_nonneg; lia. }
    destruct (py_round2 x) as [r'|e'] eqn:Er; cbn [bind except_ValueError].
    + intros [= <-]. exists x. split; [exact R|].
      apply (py_round2_rounds _ _ _ _ R Er).
    + destruct e'; discriminate.
  - destruct e; discriminate.
Qed.

(** C6: [parse_float] never raises.  It keeps the decimal digits and
    the dots of its argument; when these hold a digit and at most one
    dot it returns a number, and otherwise, as for "N/A", null.  The
    number is that of the kept characters: the fraction they spell,
    all the digits over ten to the number of digits after the dot, is
    rounded to a double as IEEE 754 rounds, and that double to the
    double nearest to a whole number of hundredths, each rounding
    naming one double; so "45.67%" gives 45.67, "2.675" gives 2.67 and
    "1.005" gives 1.0. *)
Theorem parse_float_total :
  (forall s, exists r, parse_float s = Ok r)
  /\ (forall s, parse_float s = parse_float (filter float_char s))
  /\ (forall s, parse_float s = Ok None
                <-> (forall c, In c s -> is_decimal c = false)
                    \/ (2 <= count_dots s)%nat)
  /\ (forall s x, parse_float s = Ok (Some x) ->
                  x = S754_infinity false
                  \/ exists h, 0 <= h /\ x = nearest_double h 100)
  /\ (forall s r, parse_float s = Ok (Some r) ->
                  exists x,
                    rounds_to_double (kept_numerator s) (kept_denominator s) x
                    /\ rounded_to_hundredths x r)
  /\ (forall p q x y, 0 <= p -> 0 < q ->
                      rounds_to_double p q x -> rounds_to_double p q y ->
                      x = y)
  /\ (forall x r r', rounded_to_hundredths x r ->
                     rounded_to_hundredths x r' -> r = r')
  /\ kept_numerator (str "45.67%") = 4567
  /\ kept_denominator (str "45.67%") = 100
  /\ parse_float (str "45.67%") = Ok (Some (nearest_double 4567 100))
  /\ nearest_double 4567 100 = S754_finite false 6427481093187830 (-47)
  /\ parse_float (str "2.675")
     = Ok (Some (S754_finite false 6012305502539612 (-51)))
  /\ parse_float (str "1.005")
     = Ok (Some (S754_finite false 4503599627370496 (-52)))
  /\ parse_float (str "N/A") = Ok None.
Proof.
  split; [|split; [|split; [|split; [|split; [|split; [|split]]]]]].
  - intros s. destruct (parse_float_cases s) as [[_ E] | [_ [_ [x [E _]]]]];
      rewrite E; eexists; reflexivity.
  - intros s. unfold parse_float. fold float_char.
    rewrite filter_idem. reflexivity.
  - intros s. destruct (parse_float_cases s)
      as [[H E] | [[c [Hin Hc]] [Hd [x [E _]]]]]; rewrite E.
    + tauto.
    + split; [discriminate|]. intros [H | H]; [|lia].
      rewrite (H c Hin) in Hc. discriminate.
  - intros s x H. destruct (parse_float_cases s)
      as [[_ E] | [_ [_ [x' [E Hx]]]]]; rewrite E in H.
    + discriminate.
    + injection H as <-. exact Hx.
  - exact parse_float_value.
  - intros p q x y. apply rounds_to_double_unique.
  - exact rounded_to_hundredths_unique.
  - repeat split; vm_compute; reflexivity.
Qed.

(** The sample table and the same rows under a bare table tag. *)

(** ** The page without a constituency section (C7) *)

Lemma find_none_iff {A} (f : A -> bool) (l : list A) :
  find f l = None <-> forall x, In x l -> f x = false.
Proof.
  induction l as [|x l IH]; simpl; [tauto|].
  destruct (f x) eqn:E; split.
  - discriminate.
  - intros H. specialize (H x (or_introl eq_refl)). congruence.
  - intros H y [<- | Hy]; [exact E | apply IH; assumption].
  - intros H. apply IH. intros y Hy. apply H. right. exact Hy.
Qed.

Lemma find_id_none (value : pystr) (soup : node) :
  find_id value soup = None <->
  forall n, In n (descendants soup) -> get_attr (str "id") n <> Some value.
Proof.
  unfold find_id. rewrite find_none_iff. split.
  - intros H n Hin Hid. destruct n as [t|name attrs children].
    + discriminate Hid.
    + assert (Hf : In (Tag name attrs children)
                      (filter (fun n => match n with
                                        | Tag _ _ _ => true
                                        | Text _ => false
                                        end) (descendants soup)))
        by (apply filter_In; split; [exact Hin | reflexivity]).
      specialize (H _ Hf). cbv beta in H. rewrite Hid, str_eqb_refl in H.
      discriminate.
  - intros H n Hin. apply filter_In in Hin as [Hin _].
    specialize (H n Hin). destruct (get_attr (str "id") n) as [v|];
      [|reflexivity].
    destruct (str_eqb v value) eqn:E; [|reflexivity].
    apply str_eqb_eq in E as ->. congruence.
Qed.

(** C7: on a page without an element of id [By_constituency] the
    locator returns the not-found signal, whatever tables the page
    holds, and the script goes on without an error: it writes no
    constituency file and prints that the section is missing. *)
Theorem no_anchor_no_constituency_table (limit : N) (lower : pystr -> pystr)
    (soup : node) :
  lacks_anchor soup ->
  find_constituency_table lower soup = None
  /\ constituency_stage limit lower soup = Ok [PrintNoSection].
Proof.
  intros H. apply find_id_none in H.
  assert (E : find_constituency_table lower soup = None)
    by (unfold find_constituency_table; rewrite H; reflexivity).
  split; [exact E|]. unfold constituency_stage. rewrite E. reflexivity.
Qed.

(** The sample page without the anchor holds a table that the locator
    would take, and yields none. *)
Lemma no_anchor_no_constituency_table_witness :
  lacks_anchor sample_page_without_anchor
  /\ find (is_constituency_table ascii_lower) (wikitables sample_page_without_anchor)
     = Some sample_table
  /\ find_constituency_table ascii_lower sample_page_without_anchor = None
  /\ constituency_stage 4300 ascii_lower sample_page_without_anchor
     = Ok [PrintNoSection].
Proof.
  assert (H : lacks_anchor sample_page_without_anchor).
  { unfold lacks_anchor. apply find_id_none. vm_compute. reflexivity. }
  split; [exact H|]. split; [vm_compute; reflexivity|].
  exact (no_anchor_no_constituency_table 4300 ascii_lower
           sample_page_without_anchor H).
Defined.

(** ** Unique constituency names (C8) *)

(** Splits a hypothesis along the tests of a loop body. *)
Ltac break_in H :=
  repeat match type of H with
         | context [match ?x with _ => _ end] => destruct x eqn:?
         end.

(** What a row does to the dictionary: nothing, unless it gives a
    candidate, who goes to the group of the current constituency, made
    on the spot when the dictionary has none of that name. *)
Lemma process_row_dict (limit : N) (lower : pystr -> pystr) (cols : columns)
    (st st' : loop_state) (row : node) (e : row_exit) :
  process_row limit lower cols st row = Ok (e, st') ->
  (e <> Appended /\ constituencies st' = constituencies st)
  \/ (e = Appended /\ exists name c,
        current_constituency st' = Some name
        /\ ((dict_mem name (constituencies st) = true
             /\ constituencies st'
                = dict_append name c (constituencies st))
            \/ (dict_mem name (constituencies st) = false
                /\ exists el t tp,
                     constituencies st'
                     = dict_append name c
                         (dict_add name
                            {| g_constituency := name; g_electorate := el;
                               g_turnout := t; g_turnout_pct := tp;
                               g_candidates := [] |}
                            (constituencies st))))).
Proof.
  unfold process_row, bind. intros H.
  destruct (find_all _ row) as [|first_cell cells];
    [injection H as <- <-; left; split; [discriminate | reflexivity]|].
  destruct (has_keyword _ _ _);
    [injection H as <- <-; left; split; [discriminate | reflexivity]|].
  destruct (if is_new cols first_cell && _ then _ else _) as [name|] eqn:Hcur;
    [|injection H as <- <-; left; split; [discriminate | reflexivity]].
  destruct (negb (nonempty name));
    [injection H as <- <-; left; split; [discriminate | reflexivity]|].
  destruct (negb (nonempty (get _ (candidate_col cols))) && _);
    [injection H as <- <-; left; split; [discriminate | reflexivity]|].
  cbn [constituencies current_constituency] in H.
  destruct (dict_mem name (constituencies st)) eqn:Hmem.
  - break_in H; try discriminate; injection H as <- <-;
      right; (split; [reflexivity|]); eexists; eexists;
      (split; [reflexivity|]); left; (split; [exact Hmem | reflexivity]).
  - destruct (parse_int limit
                (if is_new cols first_cell then get _ (elect_col cols)
                 else [])) as [el|]; [|discriminate].
    destruct (parse_int limit
                (if is_new cols first_cell then get _ (turnout_col cols)
                 else [])) as [t|]; [|discriminate].
    destruct (parse_float
                (if is_new cols first_cell then get _ (turnout_pct_col cols)
                 else [])) as [tp|]; [|discriminate].
    break_in H; try discriminate; injection H as <- <-;
      right; (split; [reflexivity|]); eexists; eexists;
      (split; [reflexivity|]); right; (split; [exact Hmem|]);
      eexists; eexists; eexists; reflexivity.
Qed.





Lemma dict_get_add_new (k : pystr) (g : group) (d : dict) :
  dict_mem k d = false -> dict_get k (dict_add k g d) = Some g.
Proof.
  unfold dict_get, dict_add. induction d as [|[k0 g0] d IH]; simpl.
  - rewrite str_eqb_refl. reflexivity.
  - intros H. apply orb_false_iff in H as [H1 H2]. rewrite H1. apply IH, H2.
Qed.




Lemma dict_get_append_group (k k' : pystr) (c : candidate) (d : dict) :
  dict_get k' (dict_append k c d)
  = option_map (fun g => if str_eqb k' k then with_candidate g c else g)
               (dict_get k' d).
Proof.
  unfold dict_get. induction d as [|[k0 g] d IH]; simpl; [reflexivity|].
  destruct (str_eqb k0 k) eqn:E0; simpl.
  - apply str_eqb_eq in E0 as ->.
    destruct (str_eqb k k') eqn:E1; simpl.
    + apply str_eqb_eq in E1 as ->. rewrite str_eqb_refl. reflexivity.
    + destruct (find _ d) as [[k1 g1]|] eqn:F; simpl; [|reflexivity].
      destruct (str_eqb k' k) eqn:E2; [|reflexivity].
      apply str_eqb_eq in E2 as ->. rewrite str_eqb_refl in E1. discriminate.
  - destruct (str_eqb k0 k') eqn:E1; simpl; [|exact IH].
    apply str_eqb_eq in E1 as ->. rewrite E0. reflexivity.
Qed.






(** * Further properties of the code *)

(** ** Footer rows of the summary table *)

(** A row of the summary table that has cells is skipped as a footer
    row exactly when its cleaned, lowercased text contains one of the
    six keywords of line 266, and then adds nothing to the results. *)
Theorem summary_footer_row_iff_keyword (limit : N) (lower : pystr -> pystr)
    (cols : summary_columns) (results : list party_result) (row : node) :
  ((exists results',
      process_summary_row limit lower cols results row
      = Ok (SFooterRow, results'))
   <->
   (find_all [str "td"; str "th"] row <> [] /\
    exists kw a b,
      In kw [str "total"; str "source"; str "valid"; str "invalid";
             str "registered"; str "blank"] /\
      lower (clean_text (get_text row)) = a ++ kw ++ b))
  /\ (forall results',
        process_summary_row limit lower cols results row
        = Ok (SFooterRow, results') -> results' = results).
Proof.
  assert (Hinv : forall results',
             process_summary_row limit lower cols results row
             = Ok (SFooterRow, results') ->
             find_all [str "td"; str "th"] row <> []
             /\ has_keyword lower summary_footer_keywords row = true
             /\ results' = results).
  { intros results'. unfold process_summary_row.
    destruct (find_all _ row) as [|c cells]; [discriminate|].
    destruct (has_keyword lower summary_footer_keywords row).
    - intros H; injection H as <-. repeat split; discriminate.
    - unfold bind. break_body; discriminate. }
  split; [split|].
  - intros [results' H]. apply Hinv in H as [Hc [Hk _]].
    split; [exact Hc|]. apply existsb_contains in Hk. exact Hk.
  - intros [Hc Hk]. exists results. unfold process_summary_row.
    destruct (find_all _ row) as [|c cells]; [congruence|].
    apply existsb_contains in Hk. fold summary_footer_keywords in Hk.
    unfold has_keyword. rewrite Hk. reflexivity.
  - intros results' H. apply Hinv in H. tauto.
Qed.

(** ** Header row and column lookup *)

Lemma find_header_row_from (lower : pystr -> pystr) (kw : pystr)
    (rows : list node) (k : nat) :
  match find_header_row lower kw k rows with
  | Some (i, row) =>
      (k <= i)%nat
      /\ nth_error rows (i - k) = Some row
      /\ any_contains kw (th_texts lower row) = true
      /\ forall j r, (j < i - k)%nat -> nth_error rows j = Some r ->
                     any_contains kw (th_texts lower r) = false
  | None =>
      forall r, In r rows -> any_contains kw (th_texts lower r) = false
  end.
Proof.
  revert k. induction rows as [|row rows IH]; intros k; cbn [find_header_row].
  - intros r [].
  - destruct (any_contains kw (th_texts lower row)) eqn:E.
    + rewrite Nat.sub_diag. repeat split; [lia | exact E | intros; lia].
    + specialize (IH (S k)).
      destruct (find_header_row lower kw (S k) rows) as [[i r]|].
      * destruct IH as [Hk [Hn [Ha Hb]]].
        replace (i - k)%nat with (S (i - S k)) by lia.
        repeat split; [lia | exact Hn | exact Ha |].
        intros j r' Hj Hr. destruct j as [|j]; simpl in Hr.
        -- injection Hr as <-. exact E.
        -- apply (Hb j); [lia | exact Hr].
      * intros r [<- | Hr]; [exact E | apply IH, Hr].
Qed.

(** The header search returns the first row, with its index, one of
    whose header cells mentions the keyword, and nothing exactly when
    no row has such a cell. *)
Theorem find_header_row_first (lower : pystr -> pystr) (kw : pystr)
    (rows : list node) :
  match find_header_row lower kw 0 rows with
  | Some (i, row) =>
      nth_error rows i = Some row
      /\ any_contains kw (th_texts lower row) = true
      /\ forall j r, (j < i)%nat -> nth_error rows j = Some r ->
                     any_contains kw (th_texts lower r) = false
  | None =>
      forall r, In r rows -> any_contains kw (th_texts lower r) = false
  end.
Proof.
  pose proof (find_header_row_from lower kw rows 0) as G.
  destruct (find_header_row lower kw 0 rows) as [[i row]|]; [|exact G].
  rewrite Nat.sub_0_r in G. tauto.
Qed.

Lemma first_index_spec (name : pystr) (headers : list pystr) (k : Z) :
  match first_index name k headers with
  | Some i =>
      k <= i < k + Z.of_nat (length headers)
      /\ (exists h, nth_error headers (Z.to_nat (i - k)) = Some h
                    /\ contains name h = true)
      /\ forall j h, (j < Z.to_nat (i - k))%nat ->
                     nth_error headers j = Some h -> contains name h = false
  | None => forall h, In h headers -> contains name h = false
  end.
Proof.
  revert k. induction headers as [|h hs IH]; intros k; cbn [first_index].
  - intros h [].
  - destruct (contains name h) eqn:E.
    + rewrite Z.sub_diag. cbn [length]. repeat split; try lia.
      exists h. split; [reflexivity | exact E].
    + specialize (IH (k + 1)).
      destruct (first_index name (k + 1) hs) as [i|].
      * destruct IH as [Hk [[h' [Hn Hc]] Hb]]. cbn [length].
        replace (Z.to_nat (i - k)) with (S (Z.to_nat (i - (k + 1)))) by lia.
        repeat split; try lia.
        -- exists h'. split; [exact Hn | exact Hc].
        -- intros j h0 Hj Hh. destruct j as [|j]; simpl in Hh.
           ++ injection Hh as <-. exact E.
           ++ apply (Hb j); [lia | exact Hh].
      * intros h0 [<- | Hh]; [exact E | apply IH, Hh].
Qed.

(** [col_idx] returns a position inside the header list: that of the
    first header containing the first of the names that occurs in any
    header; it returns nothing exactly when no header contains any of
    the names. *)
Theorem col_idx_first_match (headers names : list pystr) :
  match col_idx headers names with
  | Some i =>
      0 <= i < Z.of_nat (length headers)
      /\ exists earlier name later h,
           names = earlier ++ name :: later
           /\ (forall n hd, In n earlier -> In hd headers ->
                            contains n hd = false)
           /\ nth_error headers (Z.to_nat i) = Some h
           /\ contains name h = true
           /\ forall j hd, (j < Z.to_nat i)%nat ->
                           nth_error headers j = Some hd ->
                           contains name hd = false
  | None =>
      forall n hd, In n names -> In hd headers -> contains n hd = false
  end.
Proof.
  induction names as [|name names IH]; cbn [col_idx].
  - intros n hd [].
  - pose proof (first_index_spec name headers 0) as F.
    destruct (first_index name 0 headers) as [i|].
    + destruct F as [Hi [[h [Hn Hc]] Hb]]. rewrite Z.sub_0_r in *.
      split; [lia|]. exists [], name, names, h.
      repeat split; try assumption. intros n hd [].
    + destruct (col_idx headers names) as [i|].
      * destruct IH as [Hi [earlier [nm [later [h [-> [He Hr]]]]]]].
        split; [exact Hi|]. exists (name :: earlier), nm, later, h.
        split; [reflexivity|]. split; [|exact Hr].
        intros n hd [<- | Hn] Hh; [apply F, Hh | apply (He n hd Hn Hh)].
      * intros n hd [<- | Hn] Hh; [apply F, Hh | apply (IH n hd Hn Hh)].
Qed.

(** ** Locator and extractor together *)

Lemma find_some_first {A} (f : A -> bool) (l : list A) (x : A) :
  find f l = Some x ->
  f x = true
  /\ exists before after,
       l = before ++ x :: after /\ forall y, In y before -> f y = false.
Proof.
  induction l as [|y l IH]; simpl; [discriminate|].
  destruct (f y) eqn:E.
  - intros [= <-]. split; [exact E|]. exists [], l.
    split; [reflexivity | intros z []].
  - intros H. destruct (IH H) as [Hx [b [a [-> Hb]]]].
    split; [exact Hx|]. exists (y :: b), a.
    split; [reflexivity|]. intros z [<- | Hz]; [exact E | apply Hb, Hz].
Qed.

Lemma find_header_row_some (lower : pystr -> pystr) (kw : pystr)
    (rows : list node) :
  existsb (fun row => any_contains kw (th_texts lower row)) rows = true ->
  exists i row, find_header_row lower kw 0 rows = Some (i, row).
Proof.
  intros H. pose proof (find_header_row_from lower kw rows 0) as F.
  destruct (find_header_row lower kw 0 rows) as [[i row]|]; [eauto|].
  apply existsb_exists in H as [r [Hr Hc]]. rewrite (F r Hr) in Hc.
  discriminate.
Qed.

(** The table the results locator returns is the first table of class
    [wikitable], in document order, with a row whose header cells
    mention party, votes and seats; and the summary extractor finds its
    header row in that table. *)
Theorem located_results_table (lower : pystr -> pystr) (soup table : node) :
  find_results_table lower soup = Some table ->
  has_name [str "table"] table = true
  /\ has_class (str "wikitable") table = true
  /\ is_results_table lower table = true
  /\ (exists before after,
        wikitables soup = before ++ table :: after
        /\ forall t, In t before -> is_results_table lower t = false)
  /\ exists i row,
       find_header_row lower (str "votes") 0 (find_all [str "tr"] table)
       = Some (i, row).
Proof.
  unfold find_results_table. intros H.
  apply find_some_first in H as [Ht [before [after [E Hb]]]].
  assert (Hin : In table (wikitables soup))
    by (rewrite E; apply in_or_app; right; left; reflexivity).
  unfold wikitables in Hin. apply filter_In in Hin as [Hin Hcls].
  unfold find_all in Hin. apply filter_In in Hin as [_ Hname].
  repeat split; try assumption.
  - exists before, after. split; assumption.
  - apply find_header_row_some. unfold is_results_table in Ht.
    apply existsb_exists in Ht as [row [Hr Hc]].
    apply existsb_exists. exists row. split; [exact Hr|].
    apply andb_true_iff in Hc as [Hc _]. apply andb_true_iff in Hc. tauto.
Qed.

(** The table the constituency locator returns: the page has an element
    of id [By_constituency], the table is the first table of class
    [wikitable] with a header cell that mentions "constituency", and
    the constituency extractor finds its header row in it. *)
Theorem located_constituency_table (lower : pystr -> pystr)
    (soup table : node) :
  find_constituency_table lower soup = Some table ->
  (exists anchor, In anchor (descendants soup)
                  /\ get_attr (str "id") anchor = Some (str "By_constituency"))
  /\ has_class (str "wikitable") table = true
  /\ (exists before after,
        wikitables soup = before ++ table :: after
        /\ forall t, In t before -> is_constituency_table lower t = false)
  /\ exists i row,
       find_header_row lower (str "constituency") 0
         (find_all [str "tr"] table) = Some (i, row).
Proof.
  unfold find_constituency_table.
  destruct (find_id (str "By_constituency") soup) as [anchor|] eqn:Ea;
    [|discriminate].
  intros H. apply find_some_first in H as [Ht [before [after [E Hb]]]].
  assert (Hin : In table (wikitables soup))
    by (rewrite E; apply in_or_app; right; left; reflexivity).
  unfold wikitables in Hin. apply filter_In in Hin as [_ Hcls].
  split; [|split; [exact Hcls | split]].
  - unfold find_id in Ea. apply find_some_first in Ea as [Hid [b [a [Eb _]]]].
    exists anchor. split.
    + assert (Hf : In anchor (filter (fun n => match n with
                                               | Tag _ _ _ => true
                                               | Text _ => false
                                               end) (descendants soup)))
        by (rewrite Eb; apply in_or_app; right; left; reflexivity).
      apply filter_In in Hf. tauto.
    + destruct (get_attr (str "id") anchor) as [v|]; [|discriminate].
      apply str_eqb_eq in Hid as ->. reflexivity.
  - exists before, after. split; assumption.
  - apply find_header_row_some. exact Ht.
Qed.

Lemma located_results_table_witness :
  find_results_table ascii_lower sample_results_page
  = Some sample_results_table
  /\ has_name [str "table"] sample_results_table = true
  /\ has_class (str "wikitable") sample_results_table = true
  /\ is_results_table ascii_lower sample_results_table = true
  /\ (exists before after,
        wikitables sample_results_page
        = before ++ sample_results_table :: after
        /\ forall t, In t before -> is_results_table ascii_lower t = false)
  /\ exists i row,
       find_header_row ascii_lower (str "votes") 0
         (find_all [str "tr"] sample_results_table) = Some (i, row).
Proof.
  assert (H : find_results_table ascii_lower sample_results_page
              = Some sample_results_table) by (vm_compute; reflexivity).
  split; [exact H|].
  exact (located_results_table ascii_lower sample_results_page
           sample_results_table H).
Defined.

Lemma located_constituency_table_witness :
  find_constituency_table ascii_lower sample_page = Some sample_table
  /\ (exists anchor,
        In anchor (descendants sample_page)
        /\ get_attr (str "id") anchor = Some (str "By_constituency"))
  /\ has_class (str "wikitable") sample_table = true
  /\ (exists before after,
        wikitables sample_page = before ++ sample_table :: after
        /\ forall t, In t before ->
                     is_constituency_table ascii_lower t = false)
  /\ exists i row,
       find_header_row ascii_lower (str "constituency") 0
         (find_all [str "tr"] sample_table) = Some (i, row).
Proof.
  assert (H : find_constituency_table ascii_lower sample_page
              = Some sample_table) by (vm_compute; reflexivity).
  split; [exact H|].
  exact (located_constituency_table ascii_lower sample_page sample_table H).
Defined.

(** The summary table of the sample page gives the one party row, the
    party name coming from the cell after the empty swatch cell; the
    row of totals is left out. *)
Example sample_results_extracted :
  parse_results_table 4300 ascii_lower sample_results_table
  = Ok [{| r_party := str "Acme Party";
           r_votes := Some 12345;
           r_percentage := Some (nearest_double 555 10);
           r_seats := Some 7;
           r_change := str "+2" |}].
Proof. vm_compute. reflexivity. Qed.

(** ** Rows that give a candidate *)

(** What a row that gives a candidate reads, and where the candidate
    goes. *)
Lemma process_row_appended (limit : N) (lower : pystr -> pystr)
    (cols : columns) (st st' : loop_state) (row : node) :
  process_row limit lower cols st row = Ok (Appended, st') ->
  exists first_cell cells name v p,
    find_all [str "td"; str "th"] row = first_cell :: cells
    /\ current_constituency st' = Some name
    /\ name <> []
    /\ (if is_new cols first_cell && nonempty (clean_text (get_text first_cell))
        then name = clean_text (get_text first_cell)
        else current_constituency st = Some name)
    /\ let new := is_new cols first_cell in
       let data := data_cells_of new (first_cell :: cells) in
       parse_int limit (get data (votes_col cols)) = Ok v
       /\ parse_float (get data (pct_col cols)) = Ok p
       /\ (nonempty (get data (candidate_col cols)) = true
           \/ nonempty (get data (votes_col cols)) = true)
       /\ ((dict_mem name (constituencies st) = true
            /\ constituencies st'
               = dict_append name (candidate_of cols data v p)
                   (constituencies st))
           \/ (dict_mem name (constituencies st) = false
               /\ exists el t tp,
                    parse_int limit
                      (if new then get data (elect_col cols) else []) = Ok el
                    /\ parse_int limit
                         (if new then get data (turnout_col cols) else [])
                       = Ok t
                    /\ parse_float
                         (if new then get data (turnout_pct_col cols) else [])
                       = Ok tp
                    /\ constituencies st'
                       = dict_append name (candidate_of cols data v p)
                           (dict_add name (empty_group name el t tp)
                              (constituencies st)))).
Proof.
  unfold process_row, bind. intros H.
  destruct (find_all _ row) as [|first_cell cells]; [discriminate|].
  destruct (has_keyword _ _ _); [discriminate|].
  destruct (if is_new cols first_cell && _ then _ else _) as [name|] eqn:Hcur;
    [|discriminate].
  destruct (nonempty name) eqn:Hname; cbn [negb] in H; [|discriminate].
  destruct (negb (nonempty (get _ (candidate_col cols))) && _) eqn:Hcv;
    [discriminate|].
  cbn [constituencies current_constituency] in H.
  exists first_cell, cells, name.
  assert (Hc : if is_new cols first_cell
                  && nonempty (clean_text (get_text first_cell))
               then name = clean_text (get_text first_cell)
               else current_constituency st = Some name).
  { destruct (is_new cols first_cell && _); [congruence | exact Hcur]. }
  assert (Hv : nonempty (get (data_cells_of (is_new cols first_cell)
                                (first_cell :: cells)) (candidate_col cols))
               = true
               \/ nonempty (get (data_cells_of (is_new cols first_cell)
                                   (first_cell :: cells)) (votes_col cols))
                  = true).
  { apply andb_false_iff in Hcv as [Hcv | Hcv];
      apply negb_false_iff in Hcv; tauto. }
  assert (Hn : name <> []) by (apply nonempty_true; exact Hname).
  destruct (dict_mem name (constituencies st)) eqn:Hmem.
  - destruct (parse_int limit (get _ (votes_col cols))) as [v|] eqn:Ev;
      [|discriminate].
    destruct (parse_float (get _ (pct_col cols))) as [p|] eqn:Ep;
      [|discriminate].
    injection H as <-. exists v, p. cbv zeta.
    repeat split; try assumption. left. split; reflexivity.
  - destruct (parse_int limit
                (if is_new cols first_cell then get _ (elect_col cols)
                 else [])) as [el|] eqn:Eel; [|discriminate].
    destruct (parse_int limit
                (if is_new cols first_cell then get _ (turnout_col cols)
                 else [])) as [t|] eqn:Et; [|discriminate].
    destruct (parse_float
                (if is_new cols first_cell then get _ (turnout_pct_col cols)
                 else [])) as [tp|] eqn:Etp; [|discriminate].
    destruct (parse_int limit (get _ (votes_col cols))) as [v|] eqn:Ev;
      [|discriminate].
    destruct (parse_float (get _ (pct_col cols))) as [p|] eqn:Ep;
      [|discriminate].
    injection H as <-. exists v, p. cbv zeta.
    repeat split; try assumption. right. split; [reflexivity|].
    exists el, t, tp. repeat split; assumption.
Qed.

Lemma parse_int_nonneg (limit : N) (s : pystr) (n : Z) :
  parse_int limit s = Ok (Some n) -> 0 <= n.
Proof.
  rewrite parse_int_cases. destruct (filter is_decimal s) as [|c ds];
    [discriminate|].
  cbv zeta. destruct (over_digit_limit _ _); [discriminate|].
  intros [= <-]. apply digits_value_nonneg.
Qed.

Lemma in_dict_append (name k : pystr) (c : candidate) (g' : group) (d : dict) :
  In (k, g') (dict_append name c d) ->
  In (k, g') d \/ exists g, In (k, g) d /\ g' = with_candidate g c.
Proof.
  induction d as [|[k0 g0] d IH]; simpl; [tauto|].
  destruct (str_eqb k0 name); simpl.
  - intros [[= <- <-] | H]; [right; exists g0; split; [left|]; reflexivity|].
    left. right. exact H.
  - intros [H | H]; [left; left; exact H|].
    destruct (IH H) as [H' | [g [Hg ->]]]; [left; right; exact H'|].
    right. exists g. split; [right; exact Hg | reflexivity].
Qed.

Lemma dict_append_add_new (name : pystr) (c : candidate) (g : group)
    (d : dict) :
  dict_mem name d = false ->
  dict_append name c (dict_add name g d) = d ++ [(name, with_candidate g c)].
Proof.
  unfold dict_add. induction d as [|[k0 g0] d IH]; simpl.
  - rewrite str_eqb_refl. reflexivity.
  - intros H. apply orb_false_iff in H as [H1 H2]. rewrite H1, IH by exact H2.
    reflexivity.
Qed.

Lemma group_ok_with_candidate (g : group) (c : candidate) :
  (forall v, c_votes c = Some v -> 0 <= v) ->
  (forall n, g_electorate g = Some n -> 0 <= n) ->
  (forall n, g_turnout g = Some n -> 0 <= n) ->
  (forall c' v, In c' (g_candidates g) -> c_votes c' = Some v -> 0 <= v) ->
  group_ok (with_candidate g c).
Proof.
  intros Hc He Ht Hg. unfold group_ok, with_candidate; cbn.
  repeat split; try assumption.
  - destruct (g_candidates g); discriminate.
  - intros c' v Hin Hv. apply in_app_or in Hin as [Hin | [<- | []]];
      [apply (Hg c' v Hin Hv) | apply (Hc v Hv)].
Qed.

Lemma process_row_ok (limit : N) (lower : pystr -> pystr) (cols : columns)
    (st st' : loop_state) (row : node) (e : row_exit) :
  process_row limit lower cols st row = Ok (e, st') ->
  dict_ok (constituencies st) -> dict_ok (constituencies st').
Proof.
  intros H Hok. destruct e;
    try (apply process_row_dict in H as [[_ ->] | [H _]];
         [exact Hok | discriminate]).
  apply process_row_appended in H
    as [fc [cells [name [v [p [_ [_ [_ [_ H]]]]]]]]].
  cbv zeta in H. destruct H as [Hv [_ [_ H]]].
  assert (Hc : forall n, c_votes (candidate_of cols
                 (data_cells_of (is_new cols fc) (fc :: cells)) v p) = Some n ->
               0 <= n).
  { cbn. intros n ->. apply (parse_int_nonneg _ _ _ Hv). }
  destruct H as [[_ ->] | [Hm [el [t [tp [Hel [Ht [_ ->]]]]]]]].
  - intros k g' Hin. apply in_dict_append in Hin as [Hin | [g [Hin ->]]].
    + apply (Hok k g' Hin).
    + destruct (Hok k g Hin) as [_ [Hg [He Htu]]].
      apply group_ok_with_candidate; assumption.
  - rewrite dict_append_add_new by exact Hm.
    intros k g' Hin. apply in_app_or in Hin as [Hin | [[= <- <-] | []]].
    + apply (Hok k g' Hin).
    + apply group_ok_with_candidate; cbn; try assumption.
      * intros n ->. apply (parse_int_nonneg _ _ _ Hel).
      * intros n ->. apply (parse_int_nonneg _ _ _ Ht).
      * intros c' n [].
Qed.

Lemma run_rows_ok (limit : N) (lower : pystr -> pystr) (cols : columns)
    (rows : list node) (st st' : loop_state) :
  run_rows limit lower cols rows st = Ok st' ->
  dict_ok (constituencies st) -> dict_ok (constituencies st').
Proof.
  unfold run_rows. revert st. induction rows as [|row rows IH]; intros st H.
  - injection H as <-. auto.
  - cbn [foldM] in H. unfold bind at 1 2 in H.
    destruct (process_row limit lower cols st row) as [[e st1]|] eqn:E;
      [|discriminate].
    cbn [snd] in H. intros Hok. apply (IH _ H).
    apply (process_row_ok _ _ _ _ _ _ _ E Hok).
Qed.

Lemma sum_known_bounds (votes : list (option Z)) :
  (forall v, In (Some v) votes -> 0 <= v) ->
  0 <= sum_known votes
  /\ forall v, In (Some v) votes -> v <= sum_known votes.
Proof.
  induction votes as [|[x|] votes IH]; intros H; simpl.
  - split; [lia | intros v []].
  - destruct IH as [H0 Hle]; [intros v Hv; apply H; right; exact Hv|].
    assert (0 <= x) by (apply H; left; reflexivity).
    split; [lia|]. intros v [[= <-] | Hv]; [lia|].
    specialize (Hle v Hv). lia.
  - destruct IH as [H0 Hle]; [intros v Hv; apply H; right; exact Hv|].
    split; [exact H0|]. intros v [Hv | Hv]; [discriminate | auto].
Qed.

(** Every group the constituency extractor returns has at least one
    candidate; its electorate, turnout and vote counts are not negative;
    and no candidate, the winner included, has more votes than
    [total_votes]. *)
Theorem groups_well_formed (limit : N) (lower : pystr -> pystr)
    (table : node) :
  match parse_by_constituency_table limit lower table with
  | Ok groups =>
      Forall (fun g =>
                candidates g <> []
                /\ 0 <= total_votes g
                /\ (forall c v, In c (candidates g) -> c_votes c = Some v ->
                                0 <= v <= total_votes g)
                /\ (forall v, w_votes (winner_of g) = Some v ->
                              0 <= v <= total_votes g)
                /\ (forall n, electorate g = Some n -> 0 <= n)
                /\ (forall n, turnout g = Some n -> 0 <= n))
             groups
  | Raise _ => True
  end.
Proof.
  unfold parse_by_constituency_table.
  destruct (find_header_row _ _ _) as [[i header_row]|]; [|constructor].
  unfold bind. destruct (expand_headers _ _ _) as [headers|]; [|exact I].
  destruct (run_rows _ _ _ _ _) as [st|] eqn:E; [|exact I].
  apply run_rows_ok in E; [|intros k g []].
  apply Forall_forall. intros c Hc. apply in_map_iff in Hc as [[k g] [<- Hin]].
  destruct (E k g Hin) as [Hne [Hv [He Ht]]]. cbn [fst snd].
  destruct (summarise_sound k g) as [Htot Hw].
  cbn [candidates summarise] in *.
  destruct (sum_known_bounds (map c_votes (g_candidates g))) as [H0 Hle].
  { intros v Hin'. apply in_map_iff in Hin' as [c' [Hc' Hin']].
    apply (Hv c' v Hin' Hc'). }
  assert (Hcand : forall c' v, In c' (g_candidates g) -> c_votes c' = Some v ->
                               0 <= v <= total_votes (summarise k g)).
  { intros c' v Hin' Hc'. rewrite Htot. split; [apply (Hv c' v Hin' Hc')|].
    apply Hle. rewrite <- Hc'. apply in_map. exact Hin'. }
  assert (Hwin : forall v, w_votes (winner_of (summarise k g)) = Some v ->
                           0 <= v <= total_votes (summarise k g)).
  { intros v Hwv.
    destruct Hw as [[_ Hw] | [bef [c' [aft [v' [Ecs [Hc' [_ [_ Hw]]]]]]]]];
      rewrite Hw in Hwv; cbn in Hwv; [discriminate|]. injection Hwv as <-.
    apply (Hcand c' v'); [|exact Hc'].
    rewrite Ecs. apply in_or_app. right. left. reflexivity. }
  split; [exact Hne|]. split; [rewrite Htot; exact H0|].
  split; [exact Hcand|]. split; [exact Hwin|]. split; [exact He | exact Ht].
Qed.

(** ** Groups across rows *)

Lemma extends_refl (g : group) : extends g g.
Proof.
  repeat split. exists []. rewrite app_nil_r. reflexivity.
Qed.

Lemma extends_trans (g1 g2 g3 : group) :
  extends g1 g2 -> extends g2 g3 -> extends g1 g3.
Proof.
  intros [A1 [A2 [A3 [A4 [m1 A5]]]]] [B1 [B2 [B3 [B4 [m2 B5]]]]].
  unfold extends. rewrite B1, B2, B3, B4, A1, A2, A3, A4.
  repeat split. exists (m1 ++ m2). rewrite B5, A5, app_assoc. reflexivity.
Qed.

Lemma extends_with_candidate (g : group) (c : candidate) :
  extends g (with_candidate g c).
Proof. repeat split. exists [c]. reflexivity. Qed.

Lemma dict_get_add_old (k k' : pystr) (g g0 : group) (d : dict) :
  dict_get k' d = Some g -> dict_get k' (dict_add k g0 d) = Some g.
Proof.
  unfold dict_get, dict_add. induction d as [|[k1 g1] d IH]; simpl;
    [discriminate|].
  destruct (str_eqb k1 k'); simpl; [auto | exact IH].
Qed.

Lemma dict_get_append_extends (k k' : pystr) (c : candidate) (d : dict)
    (g : group) :
  dict_get k' d = Some g ->
  exists g', dict_get k' (dict_append k c d) = Some g' /\ extends g g'.
Proof.
  intros H. rewrite dict_get_append_group, H. simpl.
  destruct (str_eqb k' k); eexists; (split; [reflexivity|]).
  - apply extends_with_candidate.
  - apply extends_refl.
Qed.

Lemma process_row_extends (limit : N) (lower : pystr -> pystr)
    (cols : columns) (st st' : loop_state) (row : node) (e : row_exit)
    (k : pystr) (g : group) :
  process_row limit lower cols st row = Ok (e, st') ->
  dict_get k (constituencies st) = Some g ->
  exists g', dict_get k (constituencies st') = Some g' /\ extends g g'.
Proof.
  intros H Hg. apply process_row_dict in H
    as [[_ ->] | [_ [name [c [_ [[_ ->] | [Hm [el [t [tp ->]]]]]]]]]].
  - exists g. split; [exact Hg | apply extends_refl].
  - apply dict_get_append_extends, Hg.
  - apply dict_get_append_extends, dict_get_add_old, Hg.
Qed.

(** Once a group is in the dictionary, the rows that follow leave its
    name, electorate, turnout and turnout percentage as they are and its
    candidates where they are: they can only add candidates at the end,
    also when a later row starts a group of the same name with other
    figures. *)
Theorem group_fixed_once_opened (limit : N) (lower : pystr -> pystr)
    (cols : columns) (rows : list node) (st st' : loop_state) (k : pystr)
    (g : group) :
  run_rows limit lower cols rows st = Ok st' ->
  dict_get k (constituencies st) = Some g ->
  exists g', dict_get k (constituencies st') = Some g' /\ extends g g'.
Proof.
  unfold run_rows. revert st g. induction rows as [|row rows IH];
    intros st g H Hg.
  - injection H as <-. exists g. split; [exact Hg | apply extends_refl].
  - cbn [foldM] in H. unfold bind at 1 2 in H.
    destruct (process_row limit lower cols st row) as [[e st1]|] eqn:E;
      [|discriminate].
    cbn [snd] in H.
    destruct (process_row_extends _ _ _ _ _ _ _ _ _ E Hg) as [g1 [Hg1 X1]].
    destruct (IH _ _ H Hg1) as [g2 [Hg2 X2]].
    exists g2. split; [exact Hg2 | apply (extends_trans _ _ _ X1 X2)].
Qed.

Lemma group_fixed_once_opened_witness :
  run_rows 4300 ascii_lower sample_columns (skipn 2 sample_rows)
    (state_after (firstn 2 sample_rows))
  = Ok (state_after sample_rows)
  /\ exists g,
       dict_get (str "Carriacou")
         (constituencies (state_after (firstn 2 sample_rows))) = Some g
       /\ length (g_candidates g) = 2%nat
       /\ exists g',
            dict_get (str "Carriacou")
              (constituencies (state_after sample_rows)) = Some g'
            /\ extends g g'.
Proof.
  assert (H : run_rows 4300 ascii_lower sample_columns (skipn 2 sample_rows)
                (state_after (firstn 2 sample_rows))
              = Ok (state_after sample_rows)) by (vm_compute; reflexivity).
  split; [exact H|]. eexists.
  assert (Hg : dict_get (str "Carriacou")
                 (constituencies (state_after (firstn 2 sample_rows)))
               = Some _) by (vm_compute; reflexivity).
  split; [exact Hg|]. split; [reflexivity|].
  exact (group_fixed_once_opened 4300 ascii_lower sample_columns
           (skipn 2 sample_rows) _ _ (str "Carriacou") _ H Hg).
Defined.



(** With a single percentage column in the header, that column serves
    both as the turnout percentage and as the candidate's share: a row
    that starts a group and opens it records the share of its candidate
    as the turnout percentage of the constituency. *)
Theorem single_percentage_column (limit : N) (lower : pystr -> pystr)
    (headers : list pystr) (i : Z) (st st' : loop_state)
    (row first_cell : node) (cells : list node) (name : pystr) :
  indices_where is_pct_header 0 headers = [i] ->
  process_row limit lower (resolve_columns headers) st row
  = Ok (Appended, st') ->
  find_all [str "td"; str "th"] row = first_cell :: cells ->
  is_new (resolve_columns headers) first_cell = true ->
  current_constituency st' = Some name ->
  dict_mem name (constituencies st) = false ->
  turnout_pct_col (resolve_columns headers) = Some i
  /\ pct_col (resolve_columns headers) = Some i
  /\ exists g c,
       dict_get name (constituencies st') = Some g
       /\ g_candidates g = [c]
       /\ g_turnout_pct g = c_percentage c.
Proof.
  intros Hi H Hcells Hnew Hcur Hmem.
  assert (Ht : turnout_pct_col (resolve_columns headers) = Some i)
    by (unfold resolve_columns; cbn [turnout_pct_col]; rewrite Hi;
        reflexivity).
  assert (Hp : pct_col (resolve_columns headers) = Some i)
    by (unfold resolve_columns; cbn [pct_col]; rewrite Hi; reflexivity).
  split; [exact Ht|]. split; [exact Hp|].
  apply process_row_appended in H
    as [fc [cs [name' [v [p [Hc [Hcur' [_ [_ H]]]]]]]]].
  rewrite Hcells in Hc. injection Hc as <- <-.
  rewrite Hcur in Hcur'. injection Hcur' as <-.
  rewrite Hnew in H. cbv zeta in H. rewrite Ht, Hp in H.
  destruct H as [_ [Hpc [_ [[Hm _] | [_ [el [t [tp [_ [_ [Htp ->]]]]]]]]]]];
    [congruence|].
  rewrite Hpc in Htp. injection Htp as <-.
  rewrite dict_append_add_new by exact Hmem.
  eexists. eexists. split; [apply (dict_get_add_new name _ _ Hmem)|].
  split; reflexivity.
Qed.

Lemma single_percentage_column_witness :
  indices_where is_pct_header 0 one_pct_headers = [3]
  /\ is_new (resolve_columns one_pct_headers)
       (cell "td" [("rowspan", "2")] "Carriacou") = true
  /\ turnout_pct_col (resolve_columns one_pct_headers) = Some 3
  /\ pct_col (resolve_columns one_pct_headers) = Some 3
  /\ exists g c,
       dict_get (str "Carriacou")
         (constituencies
            (match process_row 4300 ascii_lower
                     (resolve_columns one_pct_headers) initial_state
                     one_pct_row with
             | Ok (_, st') => st'
             | Raise _ => initial_state
             end)) = Some g
       /\ g_candidates g = [c]
       /\ g_turnout_pct g = c_percentage c.
Proof.
  assert (Hi : indices_where is_pct_header 0 one_pct_headers = [3])
    by (vm_compute; reflexivity).
  assert (Hn : is_new (resolve_columns one_pct_headers)
                 (cell "td" [("rowspan", "2")] "Carriacou") = true)
    by (vm_compute; reflexivity).
  split; [exact Hi|]. split; [exact Hn|].
  exact (single_percentage_column 4300 ascii_lower one_pct_headers 3
           initial_state _ one_pct_row _
           [cell "td" [] "A. Adams"; cell "td" [] "1,000";
            cell "td" [] "55.5%"]
           (str "Carriacou") Hi
           ltac:(vm_compute; reflexivity) ltac:(vm_compute; reflexivity)
           Hn ltac:(vm_compute; reflexivity) ltac:(vm_compute; reflexivity)).
Defined.

(** ** The normal form of cleaned text *)

Lemma lstrip_spec (s : pystr) :
  exists pre, s = pre ++ lstrip s
              /\ match lstrip s with
                 | c :: _ => is_space c = false
                 | [] => True
                 end.
Proof.
  induction s as [|c s IH]; cbn [lstrip].
  - exists []. split; [reflexivity | exact I].
  - destruct (is_space c) eqn:E.
    + destruct IH as [pre [E1 E2]]. exists (c :: pre).
      split; [cbn [app]; f_equal; exact E1 | exact E2].
    + exists []. split; [reflexivity | exact E].
Qed.

Lemma strip_spec (s : pystr) :
  exists pre post,
    s = pre ++ strip s ++ post
    /\ match strip s with c :: _ => is_space c = false | [] => True end
    /\ match rev (strip s) with c :: _ => is_space c = false | [] => True end.
Proof.
  unfold strip, rstrip.
  destruct (lstrip_spec s) as [pre [E1 H1]].
  remember (lstrip s) as u eqn:Eu. clear Eu.
  destruct (lstrip_spec (rev u)) as [post [E2 H2]].
  remember (lstrip (rev u)) as w eqn:Ew. clear Ew.
  assert (E3 : u = rev w ++ rev post).
  { rewrite <- rev_app_distr, <- E2, rev_involutive. reflexivity. }
  exists pre, (rev post). split; [rewrite <- E3; exact E1|]. split.
  - destruct (rev w) as [|c r]; [exact I|]. rewrite E3 in H1. exact H1.
  - rewrite rev_involutive. exact H2.
Qed.

Lemma collapse_single_spaced (b : bool) (s : pystr) :
  single_spaced b (collapse_ws_from b s) = true.
Proof.
  revert b. induction s as [|c s IH]; intros b; cbn [collapse_ws_from];
    [reflexivity|].
  destruct (is_space c) eqn:E.
  - destruct b; [apply IH|]. cbn [single_spaced].
    replace (is_space space) with true by (vm_compute; reflexivity).
    unfold char_eqb. rewrite N.eqb_refl. cbn [negb andb]. apply IH.
  - cbn [single_spaced]. rewrite E. apply IH.
Qed.

Lemma single_spaced_weaken (t : pystr) :
  single_spaced true t = true -> single_spaced false t = true.
Proof.
  destruct t as [|c t]; [reflexivity|]. cbn [single_spaced].
  destruct (is_space c); [|auto]. cbn [negb]. rewrite andb_false_r.
  discriminate.
Qed.

Lemma single_spaced_app_r (b : bool) (a t : pystr) :
  single_spaced b (a ++ t) = true -> single_spaced false t = true.
Proof.
  revert b. induction a as [|c a IH]; intros b; cbn [app].
  - destruct b; [apply single_spaced_weaken | auto].
  - cbn [single_spaced]. destruct (is_space c); [|apply IH].
    intros H. apply andb_true_iff in H as [_ H]. apply (IH _ H).
Qed.

Lemma single_spaced_app_l (b : bool) (t a : pystr) :
  single_spaced b (t ++ a) = true -> single_spaced b t = true.
Proof.
  revert b. induction t as [|c t IH]; intros b; cbn [app single_spaced];
    [reflexivity|].
  destruct (is_space c); [|apply IH].
  intros H. apply andb_true_iff in H as [H1 H2]. rewrite H1. apply (IH _ H2).
Qed.

Lemma single_spaced_inner (t a b : pystr) (c : char) :
  single_spaced false t = true ->
  match t with x :: _ => is_space x = false | [] => True end ->
  match rev t with x :: _ => is_space x = false | [] => True end ->
  t = a ++ c :: b -> is_space c = true ->
  c = space
  /\ (exists a' x, a = a' ++ [x] /\ is_space x = false)
  /\ (exists y b', b = y :: b' /\ is_space y = false).
Proof.
  intros Hs Hh Hl -> Hc.
  assert (Hcb : single_spaced false (c :: b) = true)
    by (apply (single_spaced_app_r false a), Hs).
  cbn [single_spaced] in Hcb. rewrite Hc in Hcb.
  apply andb_true_iff in Hcb as [Hcs Hb].
  apply andb_true_iff in Hcs as [Hcs _].
  split; [apply char_eqb_eq; exact Hcs|]. split.
  - destruct (rev a) as [|x ra] eqn:Era;
      apply (f_equal (@rev char)) in Era; rewrite rev_involutive in Era;
      cbn [rev app] in Era; subst a.
    + cbn [app] in Hh. congruence.
    + exists (rev ra), x. split; [reflexivity|].
      rewrite <- app_assoc in Hs. cbn [app] in Hs.
      apply single_spaced_app_r in Hs. cbn [single_spaced] in Hs.
      destruct (is_space x); [|reflexivity]. rewrite Hc in Hs.
      cbn [negb] in Hs. rewrite !andb_false_r in Hs. discriminate.
  - destruct b as [|y b'].
    + rewrite rev_app_distr in Hl. cbn [rev app] in Hl. congruence.
    + exists y, b'. split; [reflexivity|]. cbn [single_spaced] in Hb.
      destruct (is_space y); [|reflexivity]. cbn [negb] in Hb.
      rewrite andb_false_r in Hb. discriminate.
Qed.

(** Every white-space character of a cleaned text is the space U+0020
    and stands between two characters that are not white space: the
    text neither begins nor ends with white space, and holds no tab, no
    line break, no no-break space and no run of spaces. *)
Theorem clean_text_normal_form (s a b : pystr) (c : char) :
  clean_text s = a ++ c :: b ->
  is_space c = true ->
  c = space
  /\ (exists a' x, a = a' ++ [x] /\ is_space x = false)
  /\ (exists y b', b = y :: b' /\ is_space y = false).
Proof.
  unfold clean_text. cbv zeta.
  remember (collapse_ws (strip_refs (strip s))) as u eqn:Eu.
  intros E Hc.
  assert (Hu : single_spaced false u = true)
    by (subst u; apply collapse_single_spaced).
  destruct (strip_spec u) as [pre [post [Ep [Hh Hl]]]].
  rewrite Ep in Hu. apply single_spaced_app_r, single_spaced_app_l in Hu.
  apply (single_spaced_inner (strip u)); assumption.
Qed.

Lemma clean_text_normal_form_witness :
  clean_text (9%N :: str " A.  Adams[12]" ++ [160%N; 10%N])
  = str "A." ++ 32%N :: str "Adams"
  /\ is_space 32%N = true
  /\ 32%N = space
  /\ (exists a' x, str "A." = a' ++ [x] /\ is_space x = false)
  /\ (exists y b', str "Adams" = y :: b' /\ is_space y = false).
Proof.
  assert (E : clean_text (9%N :: str " A.  Adams[12]" ++ [160%N; 10%N])
              = str "A." ++ 32%N :: str "Adams") by (vm_compute; reflexivity).
  assert (Hc : is_space 32%N = true) by (vm_compute; reflexivity).
  split; [exact E|]. split; [exact Hc|].
  exact (clean_text_normal_form _ _ _ _ E Hc).
Defined.

(** ** Errors *)

Lemma parse_int_raises (limit : N) (s : pystr) (e : exn) :
  parse_int limit s = Raise e -> e = ValueError /\ limit <> 0%N.
Proof.
  rewrite parse_int_cases. destruct (filter is_decimal s) as [|c ds];
    [discriminate|].
  cbv zeta. destruct (over_digit_limit _ _) eqn:E; [|discriminate].
  intros [= <-]. split; [reflexivity|]. unfold over_digit_limit in E.
  intros ->. rewrite andb_false_r in E. discriminate.
Qed.

Lemma parse_float_no_raise (s : pystr) (e : exn) :
  parse_float s = Raise e -> False.
Proof.
  destruct (parse_float_cases s) as [[_ E] | [_ [_ [x [E _]]]]]; rewrite E;
    discriminate.
Qed.

Lemma py_int_raises (limit : N) (s : pystr) (e : exn) :
  py_int limit s = Raise e -> e = ValueError.
Proof.
  unfold py_int. intros H. break_in H; congruence.
Qed.

Lemma colspan_raises (limit : N) (th : node) (e : exn) :
  colspan limit th = Raise e -> e = ValueError.
Proof.
  unfold colspan. destruct (get_attr _ th); [apply py_int_raises|discriminate].
Qed.

Lemma mapM_raises {A B} (f : A -> result B) (l : list A) (x : A) (e : exn) :
  In x l -> f x = Raise e -> exists e', mapM f l = Raise e'.
Proof.
  induction l as [|a l IH]; [intros []|]. intros [<- | Hin] Hx; cbn [mapM].
  - rewrite Hx. eexists. reflexivity.
  - unfold bind at 1. destruct (f a); [|eexists; reflexivity].
    destruct (IH Hin Hx) as [e' ->]. eexists. reflexivity.
Qed.

Lemma mapM_raise_from {A B} (f : A -> result B) (l : list A) (e : exn) :
  mapM f l = Raise e -> exists x, In x l /\ f x = Raise e.
Proof.
  induction l as [|a l IH]; cbn [mapM]; [discriminate|].
  unfold bind at 1. destruct (f a) as [b|e0] eqn:E.
  - unfold bind. destruct (mapM f l) as [bs|e1]; [discriminate|].
    intros [= <-]. destruct (IH eq_refl) as [x [Hin Hx]].
    exists x. split; [right; exact Hin | exact Hx].
  - intros [= <-]. exists a. split; [left; reflexivity | exact E].
Qed.

Lemma expand_headers_raise_from (limit : N) (lower : pystr -> pystr)
    (header_row : node) (e : exn) :
  expand_headers limit lower header_row = Raise e ->
  e = ValueError
  /\ exists th, In th (find_all [str "th"] header_row)
                /\ colspan limit th = Raise ValueError.
Proof.
  unfold expand_headers. unfold bind at 1.
  destruct (mapM _ _) as [cols|e0] eqn:E; [discriminate|].
  intros [= <-]. apply mapM_raise_from in E as [th [Hin Hth]].
  cbv zeta in Hth. unfold bind in Hth.
  destruct (colspan limit th) as [n|e1] eqn:Ec; [discriminate|].
  injection Hth as <-. pose proof (colspan_raises _ _ _ Ec) as ->.
  split; [reflexivity|]. exists th. split; assumption.
Qed.

Lemma expand_headers_raises (limit : N) (lower : pystr -> pystr)
    (header_row th : node) (e : exn) :
  In th (find_all [str "th"] header_row) ->
  colspan limit th = Raise e ->
  expand_headers limit lower header_row = Raise ValueError.
Proof.
  intros Hin Hc.
  destruct (expand_headers limit lower header_row) as [hs|e0] eqn:E.
  - exfalso. revert E. unfold expand_headers. unfold bind at 1.
    destruct (mapM_raises
                (fun th => span <- colspan limit th ;;
                           Ok (repeat (lower (clean_text (get_text th)))
                                      (Z.to_nat span)))
                _ th e Hin) as [e' ->]; [|discriminate].
    rewrite Hc. reflexivity.
  - apply expand_headers_raise_from in E as [-> _]. reflexivity.
Qed.

(** A header cell whose [colspan] attribute is not an integer literal
    makes both extractors raise [ValueError], whatever the rest of the
    table holds. *)
Theorem bad_colspan_raises (limit : N) (lower : pystr -> pystr)
    (table header_row th : node) (i : nat) (e : exn) :
  In th (find_all [str "th"] header_row) ->
  colspan limit th = Raise e ->
  (find_header_row lower (str "constituency") 0 (find_all [str "tr"] table)
   = Some (i, header_row) ->
   parse_by_constituency_table limit lower table = Raise ValueError)
  /\ (find_header_row lower (str "votes") 0 (find_all [str "tr"] table)
      = Some (i, header_row) ->
      parse_results_table limit lower table = Raise ValueError).
Proof.
  intros Hin Hc.
  pose proof (expand_headers_raises limit lower header_row th e Hin Hc) as E.
  split; intros F.
  - unfold parse_by_constituency_table. rewrite F, E. reflexivity.
  - unfold parse_results_table. rewrite F, E. reflexivity.
Qed.

Lemma bad_colspan_raises_witness :
  In bad_span_cell (find_all [str "th"] bad_span_header)
  /\ colspan 4300 bad_span_cell = Raise ValueError
  /\ parse_by_constituency_table 4300 ascii_lower bad_span_table
     = Raise ValueError
  /\ parse_results_table 4300 ascii_lower bad_span_table = Raise ValueError.
Proof.
  assert (Hin : In bad_span_cell (find_all [str "th"] bad_span_header))
    by (right; left; reflexivity).
  assert (Hc : colspan 4300 bad_span_cell = Raise ValueError)
    by (vm_compute; reflexivity).
  destruct (bad_colspan_raises 4300 ascii_lower bad_span_table
              bad_span_header bad_span_cell 0 ValueError Hin Hc) as [A B].
  split; [exact Hin|]. split; [exact Hc|]. split.
  - apply A. vm_compute. reflexivity.
  - apply B. vm_compute. reflexivity.
Defined.

Lemma foldM_raises {A S} (P : exn -> Prop) (f : S -> A -> result S)
    (l : list A) (s : S) (e : exn) :
  (forall s a e, f s a = Raise e -> P e) -> foldM f l s = Raise e -> P e.
Proof.
  intros Hf. revert s. induction l as [|a l IH]; intros s; cbn [foldM];
    [discriminate|].
  unfold bind. destruct (f s a) as [s'|e0] eqn:E.
  - apply IH.
  - intros [= <-]. apply (Hf _ _ _ E).
Qed.

Lemma process_row_raises (limit : N) (lower : pystr -> pystr)
    (cols : columns) (st : loop_state) (row : node) (e : exn) :
  process_row limit lower cols st row = Raise e ->
  e = ValueError /\ limit <> 0%N.
Proof.
  unfold process_row, bind. intros H.
  destruct (find_all _ row) as [|first_cell cells]; [discriminate|].
  destruct (has_keyword _ _ _); [discriminate|].
  destruct (if is_new cols first_cell && _ then _ else _) as [name|];
    [|discriminate].
  destruct (nonempty name); cbn [negb] in H; [|discriminate].
  destruct (negb (nonempty (get _ (candidate_col cols))) && _);
    [discriminate|].
  cbn [constituencies current_constituency] in H.
  destruct (dict_mem name (constituencies st)).
  - destruct (parse_int limit (get _ (votes_col cols))) as [v|e1] eqn:Ev.
    + destruct (parse_float (get _ (pct_col cols))) as [p|e2] eqn:Ep;
        [discriminate|]. destruct (parse_float_no_raise _ _ Ep).
    + injection H as <-. apply (parse_int_raises _ _ _ Ev).
  - destruct (parse_int limit
                (if is_new cols first_cell then get _ (elect_col cols)
                 else [])) as [el|e1] eqn:Eel;
      [|injection H as <-; apply (parse_int_raises _ _ _ Eel)].
    destruct (parse_int limit
                (if is_new cols first_cell then get _ (turnout_col cols)
                 else [])) as [t|e1] eqn:Et;
      [|injection H as <-; apply (parse_int_raises _ _ _ Et)].
    destruct (parse_float
                (if is_new cols first_cell then get _ (turnout_pct_col cols)
                 else [])) as [tp|e1] eqn:Etp;
      [|destruct (parse_float_no_raise _ _ Etp)].
    destruct (parse_int limit (get _ (votes_col cols))) as [v|e1] eqn:Ev.
    + destruct (parse_float (get _ (pct_col cols))) as [p|e2] eqn:Ep;
        [discriminate|]. destruct (parse_float_no_raise _ _ Ep).
    + injection H as <-. apply (parse_int_raises _ _ _ Ev).
Qed.

(** What a row of the summary table does to the results: nothing, or one
    record at the end. *)
Lemma process_summary_row_cases (limit : N) (lower : pystr -> pystr)
    (cols : summary_columns) (results : list party_result) (row : node) :
  match process_summary_row limit lower cols results row with
  | Ok (ex, results') =>
      (ex <> SAppended /\ results' = results)
      \/ (ex = SAppended
          /\ exists r, results' = results ++ [r] /\ party_result_ok r)
  | Raise e => e = ValueError /\ limit <> 0%N
  end.
Proof.
  unfold process_summary_row, bind.
  destruct (find_all _ row) as [|c cells]; [left; split; [discriminate|reflexivity]|].
  destruct (has_keyword _ _ _); [left; split; [discriminate|reflexivity]|].
  destruct (negb (nonempty _) && _); [left; split; [discriminate|reflexivity]|].
  destruct (parse_int limit (summary_get _ (s_votes_col cols))) as [v|e1] eqn:Ev;
    [|apply (parse_int_raises _ _ _ Ev)].
  destruct (parse_float (summary_get _ (s_pct_col cols))) as [x|e1] eqn:Ex;
    [|destruct (parse_float_no_raise _ _ Ex)].
  destruct (parse_int limit (summary_get _ (s_seats_col cols))) as [n|e1] eqn:En;
    [|apply (parse_int_raises _ _ _ En)].
  right. split; [reflexivity|]. eexists. split; [reflexivity|].
  unfold party_result_ok. cbn. repeat split.
  - intros v' ->. apply (parse_int_nonneg _ _ _ Ev).
  - intros n' ->. apply (parse_int_nonneg _ _ _ En).
  - intros x' ->.
    destruct (parse_float_cases (summary_get (c :: cells) (s_pct_col cols)))
      as [[_ E] | [_ [_ [y [E Hy]]]]]; rewrite E in Ex; [discriminate|].
    injection Ex as <-. exact Hy.
Qed.

(** When an extractor raises, it raises [ValueError]; and with the limit
    on integer conversion switched off it raises only for a header cell
    whose [colspan] attribute is not an integer literal. *)
Theorem extractor_errors (limit : N) (lower : pystr -> pystr) (table : node)
    (e : exn) :
  parse_by_constituency_table limit lower table = Raise e
  \/ parse_results_table limit lower table = Raise e ->
  e = ValueError
  /\ (limit = 0%N ->
      exists row th,
        In row (find_all [str "tr"] table)
        /\ In th (find_all [str "th"] row)
        /\ colspan limit th = Raise ValueError).
Proof.
  assert (Hrow : forall kw i hr,
             find_header_row lower kw 0 (find_all [str "tr"] table)
             = Some (i, hr) -> In hr (find_all [str "tr"] table)).
  { intros kw i hr F.
    pose proof (find_header_row_from lower kw (find_all [str "tr"] table) 0)
      as G. rewrite F in G. destruct G as [_ [G _]].
    apply nth_error_In in G. exact G. }
  intros [H | H].
  - unfold parse_by_constituency_table in H.
    destruct (find_header_row _ _ _ _) as [[i hr]|] eqn:F; [|discriminate].
    unfold bind in H.
    destruct (expand_headers limit lower hr) as [hs|e0] eqn:E.
    + destruct (run_rows _ _ _ _ _) as [st|e1] eqn:R; [discriminate|].
      injection H as <-. unfold run_rows in R.
      apply (foldM_raises (fun e => e = ValueError /\ limit <> 0%N)) in R.
      * destruct R as [-> R]. split; [reflexivity | intros L; contradiction].
      * intros s a e0 H0. unfold bind in H0.
        destruct (process_row limit lower _ s a) as [r|e2] eqn:P;
          [discriminate|]. injection H0 as <-.
        apply (process_row_raises _ _ _ _ _ _ P).
    + injection H as <-.
      apply expand_headers_raise_from in E as [-> [th [Hin Hc]]].
      split; [reflexivity|]. intros _. exists hr, th.
      split; [apply (Hrow _ _ _ F) | split; assumption].
  - unfold parse_results_table in H.
    destruct (find_header_row _ _ _ _) as [[i hr]|] eqn:F; [|discriminate].
    unfold bind at 1 in H.
    destruct (expand_headers limit lower hr) as [hs|e0] eqn:E.
    + apply (foldM_raises (fun e => e = ValueError /\ limit <> 0%N)) in H.
      * destruct H as [-> R]. split; [reflexivity | intros L; contradiction].
      * intros s a e0 H0. unfold bind in H0.
        pose proof (process_summary_row_cases limit lower
                      (resolve_summary_columns hs) s a) as P.
        destruct (process_summary_row limit lower _ s a) as [r|e2];
          [discriminate|]. injection H0 as <-. exact P.
    + injection H as <-.
      apply expand_headers_raise_from in E as [-> [th [Hin Hc]]].
      split; [reflexivity|]. intros _. exists hr, th.
      split; [apply (Hrow _ _ _ F) | split; assumption].
Qed.

Lemma extractor_errors_witness :
  parse_results_table 0 ascii_lower bad_span_table = Raise ValueError
  /\ exists row th,
       In row (find_all [str "tr"] bad_span_table)
       /\ In th (find_all [str "th"] row)
       /\ colspan 0 th = Raise ValueError.
Proof.
  assert (H : parse_results_table 0 ascii_lower bad_span_table
              = Raise ValueError) by (vm_compute; reflexivity).
  split; [exact H|].
  exact (proj2 (extractor_errors 0 ascii_lower bad_span_table ValueError
                  (or_intror H)) eq_refl).
Defined.

(** ** Records of the summary extractor *)

Lemma foldM_invariant {A S} (I : S -> Prop) (f : S -> A -> result S)
    (l : list A) (s s' : S) :
  (forall s a s', I s -> f s a = Ok s' -> I s') ->
  I s -> foldM f l s = Ok s' -> I s'.
Proof.
  intros Hf. revert s. induction l as [|a l IH]; intros s Hs; cbn [foldM].
  - intros [= <-]. exact Hs.
  - unfold bind. destruct (f s a) as [s1|] eqn:E; [|discriminate].
    apply IH. apply (Hf _ _ _ Hs E).
Qed.

(** The summary extractor gives at most one record for each row below
    the header row; the votes and seats of a record are not negative,
    and its percentage is a number of hundredths. *)
Theorem summary_results_well_formed (limit : N) (lower : pystr -> pystr)
    (table : node) :
  match parse_results_table limit lower table with
  | Ok results =>
      (length results <= length (find_all [str "tr"] table))%nat
      /\ (results <> [] ->
          (length results < length (find_all [str "tr"] table))%nat)
      /\ Forall party_result_ok results
  | Raise _ => True
  end.
Proof.
  unfold parse_results_table.
  pose proof (find_header_row_from lower (str "votes")
                (find_all [str "tr"] table) 0) as G.
  destruct (find_header_row _ _ _ _) as [[i hr]|].
  - destruct G as [_ [G _]]. rewrite Nat.sub_0_r in G.
    assert (Hi : (i < length (find_all [str "tr"] table))%nat)
      by (apply nth_error_Some; congruence).
    unfold bind at 1. destruct (expand_headers _ _ _) as [hs|]; [|exact I].
    assert (Hgen : forall rows acc res,
               foldM (fun results row =>
                        r <- process_summary_row limit lower
                               (resolve_summary_columns hs) results row ;;
                        Ok (snd r)) rows acc = Ok res ->
               Forall party_result_ok acc ->
               (length res <= length acc + length rows)%nat
               /\ Forall party_result_ok res).
    { induction rows as [|row rows IH]; intros acc res; cbn [foldM].
      - intros [= <-] Hacc. split; [lia | exact Hacc].
      - unfold bind at 1 2.
        pose proof (process_summary_row_cases limit lower
                      (resolve_summary_columns hs) acc row) as P.
        destruct (process_summary_row _ _ _ acc row) as [[ex acc']|];
          [|discriminate].
        cbn [snd length]. intros R Hacc.
        destruct P as [[_ ->] | [_ [r [-> Hr]]]].
        + destruct (IH _ _ R Hacc) as [L F]. split; [lia | exact F].
        + destruct (IH _ _ R) as [L F].
          * apply Forall_app. split; [exact Hacc | constructor; [exact Hr|constructor]].
          * rewrite length_app in L. cbn [length] in L. split; [lia | exact F]. }
    destruct (foldM _ _ _) as [res|] eqn:R; [|exact I].
    destruct (Hgen _ _ _ R (Forall_nil _)) as [L F].
    rewrite length_skipn in L. cbn [length] in L.
    split; [lia|]. split; [intros _; lia | exact F].
  - split; [apply Nat.le_0_l|]. split; [congruence | constructor].
Qed.

(** ** Rows that name a group by their text *)





(** ** Printed counts *)

Lemma digit_char (d : Z) :
  0 <= d <= 9 ->
  is_decimal (Z.to_N (48 + d)) = true /\ digit_value (Z.to_N (48 + d)) = d.
Proof.
  intros H.
  assert (C : d = 0 \/ d = 1 \/ d = 2 \/ d = 3 \/ d = 4 \/ d = 5 \/ d = 6
              \/ d = 7 \/ d = 8 \/ d = 9) by lia.
  repeat (destruct C as [-> | C]; [split; reflexivity|]).
  subst d. split; reflexivity.
Qed.

Lemma digits_value_snoc (ds : pystr) (c : char) :
  digits_value (ds ++ [c]) = 10 * digits_value ds + digit_value c.
Proof. unfold digits_value. rewrite fold_left_app. reflexivity. Qed.

Lemma digits_of_S (fuel : nat) (n : Z) :
  digits_of (S fuel) n
  = if n <? 10 then [Z.to_N (48 + n)]
    else digits_of fuel (n / 10) ++ [Z.to_N (48 + n mod 10)].
Proof. reflexivity. Qed.

Lemma digits_of_spec (fuel : nat) (n : Z) :
  0 <= n < 10 ^ Z.of_nat (S fuel) ->
  digits_of (S fuel) n <> []
  /\ forallb is_decimal (digits_of (S fuel) n) = true
  /\ digits_value (digits_of (S fuel) n) = n.
Proof.
  revert n. induction fuel as [|fuel IH]; intros n Hn;
    rewrite digits_of_S; destruct (n <? 10) eqn:E;
    try (apply Z.ltb_lt in E; destruct (digit_char n ltac:(lia)) as [D V];
         split; [discriminate|]; split;
         [cbn [forallb]; rewrite D; reflexivity
         |unfold digits_value; cbn [fold_left]; rewrite V; lia]).
  - apply Z.ltb_ge in E. change (10 ^ Z.of_nat 1) with 10 in Hn. lia.
  - apply Z.ltb_ge in E.
    assert (Hq : 0 <= n / 10 < 10 ^ Z.of_nat (S fuel)).
    { split; [apply Z.div_pos; lia|].
      apply Z.div_lt_upper_bound; [lia|].
      rewrite (Nat2Z.inj_succ (S fuel)), Z.pow_succ_r in Hn by lia. lia. }
    destruct (IH _ Hq) as [_ [D V]].
    pose proof (Z.mod_pos_bound n 10 ltac:(lia)) as Hm.
    destruct (digit_char (n mod 10) ltac:(lia)) as [D1 V1].
    split; [|split].
    + intros Habs. apply app_eq_nil in Habs as [_ Habs]. discriminate.
    + rewrite forallb_app, D. cbn [forallb]. rewrite D1. reflexivity.
    + rewrite digits_value_snoc, V, V1.
      pose proof (Z.div_mod n 10 ltac:(lia)). lia.
Qed.

Lemma digits_of_length (fuel k : nat) (n : Z) :
  0 <= n < 10 ^ Z.of_nat (S k) -> (length (digits_of fuel n) <= S k)%nat.
Proof.
  revert k n. induction fuel as [|fuel IH]; intros k n Hn; cbn [digits_of].
  - cbn [length]. lia.
  - destruct (n <? 10) eqn:E; [cbn [length]; lia|]. apply Z.ltb_ge in E.
    rewrite length_app. cbn [length].
    destruct k as [|k]; [change (10 ^ Z.of_nat 1) with 10 in Hn; lia|].
    assert (Hq : 0 <= n / 10 < 10 ^ Z.of_nat (S k)).
    { split; [apply Z.div_pos; lia|].
      apply Z.div_lt_upper_bound; [lia|].
      rewrite (Nat2Z.inj_succ (S k)), Z.pow_succ_r in Hn by lia. lia. }
    specialize (IH _ _ Hq). lia.
Qed.

Lemma py_str_nat_fuel (n : Z) :
  0 <= n -> n < 10 ^ Z.of_nat (S (Z.to_nat (Z.log2 n))).
Proof.
  intros Hn. rewrite Nat2Z.inj_succ, Z2Nat.id by apply Z.log2_nonneg.
  destruct (Z.eq_dec n 0) as [-> | Hz]; [reflexivity|].
  assert (n < 2 ^ Z.succ (Z.log2 n)) by (apply Z.log2_spec; lia).
  assert (2 ^ Z.succ (Z.log2 n) <= 10 ^ Z.succ (Z.log2 n)).
  { apply Z.pow_le_mono_l. lia. }
  lia.
Qed.

Lemma filter_group_thousands (l : pystr) :
  filter is_decimal (group_thousands l) = filter is_decimal l.
Proof.
  assert (G : forall k l, (length l <= k)%nat ->
                          filter is_decimal (group_thousands l)
                          = filter is_decimal l).
  { induction k as [|k IH]; intros l0 Hl.
    - destruct l0; [reflexivity | cbn [length] in Hl; lia].
    - destruct l0 as [|a [|b [|c [|d rest]]]]; try reflexivity.
      change (group_thousands (a :: b :: c :: d :: rest))
        with (a :: b :: c :: comma :: group_thousands (d :: rest)).
      change (a :: b :: c :: comma :: group_thousands (d :: rest))
        with ([a; b; c; comma] ++ group_thousands (d :: rest)).
      change (a :: b :: c :: d :: rest) with ([a; b; c] ++ d :: rest).
      rewrite !filter_app.
      rewrite (IH (d :: rest)) by (cbn [length] in *; lia).
      reflexivity. }
  apply (G (length l)). lia.
Qed.

Lemma filter_rev {A} (f : A -> bool) (l : list A) :
  filter f (rev l) = rev (filter f l).
Proof.
  induction l as [|a l IH]; [reflexivity|]. cbn [rev filter].
  rewrite filter_app, IH. cbn [filter].
  destruct (f a); [reflexivity | rewrite app_nil_r; reflexivity].
Qed.

(** A count as the script prints it, with its thousands separators,
    reads back through [parse_int] as the same number. *)
Theorem printed_count_parses_back (limit : N) (n : Z) :
  0 <= n < 10 ^ 640 ->
  parse_int limit (format_commas n) = Ok (Some n).
Proof.
  intros [H0 Hn].
  destruct (digits_of_spec (Z.to_nat (Z.log2 n)) n
              (conj H0 (py_str_nat_fuel n H0))) as [Hne [Hd Hv]].
  pose proof (digits_of_length (S (Z.to_nat (Z.log2 n))) 639 n
                (conj H0 Hn)) as Hl.
  fold (py_str_nat n) in Hne, Hd, Hv, Hl.
  assert (F : filter is_decimal (format_commas n) = py_str_nat n).
  { unfold format_commas.
    rewrite filter_rev, filter_group_thousands, filter_rev, rev_involutive.
    apply filter_forallb, Hd. }
  rewrite parse_int_cases, F.
  destruct (py_str_nat n) as [|c ds] eqn:E; [congruence|].
  cbv zeta.
  replace (over_digit_limit limit (N.of_nat (length (c :: ds)))) with false.
  - rewrite Hv. reflexivity.
  - symmetry. unfold over_digit_limit.
    replace (N.ltb 640 (N.of_nat (length (c :: ds)))) with false;
      [reflexivity|].
    symmetry. apply N.ltb_ge. lia.
Qed.

Lemma printed_count_parses_back_witness :
  0 <= 1234567 < 10 ^ 640
  /\ format_commas 1234567 = str "1,234,567"
  /\ format_commas 999 = str "999"
  /\ format_commas 0 = str "0"
  /\ parse_int 4300 (format_commas 1234567) = Ok (Some 1234567).
Proof.
  assert (H : 0 <= 1234567 < 10 ^ 640)
    by (split; [lia | vm_compute; reflexivity]).
  split; [exact H|]. split; [vm_compute; reflexivity|].
  split; [vm_compute; reflexivity|]. split; [vm_compute; reflexivity|].
  exact (printed_count_parses_back 4300 1234567 H).
Defined.
